(** * npmx.dev: README rendering, install commands and the package page

    A shallow embedding of the logic engines of the package page:

    - [Readme]: [server/utils/readme.ts], the URL resolution, the custom
      renderer hooks for headings, images and links, and the options passed
      to the HTML sanitizer;
    - [InstallCommand] and [InstallCommandUnified]: the two copies of
      [app/utils/install-command.ts];
    - [ReadmeRenderer]: the code block and blockquote hooks of the renderer;
    - [Page]: the route, the links and the commands of
      [app/pages/[...package].vue];
    - [Dependencies]: the sorted lists of
      [app/components/PackageDependencies.vue].

    JavaScript strings are modelled by [string]; every pattern the code
    searches for is ASCII, so prefix tests, searches and replacements act on
    the UTF-8 bytes exactly as they act on UTF-16 code units. *)

From Stdlib Require Import String Ascii List Bool Arith ZArith Lia.
From Stdlib Require Import DecimalString Permutation Sorted OrderedTypeEx.
Import ListNotations.
Open Scope list_scope.
Open Scope string_scope.

#[local] Set Warnings "-register-all".

(** ** JavaScript string primitives *)

Module Js.

(** The double quote, built from its code. *)
Definition dq : string := String (ascii_of_nat 34) EmptyString.

(** The line feed. *)
Definition nl : string := String (ascii_of_nat 10) EmptyString.

(** [s.startsWith(p)] *)
Definition startsWith (s p : string) : bool := String.prefix p s.

(** [s.slice(n)] *)
Fixpoint drop (n : nat) (s : string) : string :=
  match n, s with
  | O, _ => s
  | S _, EmptyString => EmptyString
  | S n', String _ s' => drop n' s'
  end.

(** [s.includes(p)] *)
Fixpoint includes (s p : string) : bool :=
  String.prefix p s ||
  match s with
  | EmptyString => false
  | String _ s' => includes s' p
  end.

(** [s.replace(pat, rep)] for a string pattern: only the first occurrence
    is replaced ([rep] holds no dollar sign in this code). *)
Fixpoint replace (s pat rep : string) : string :=
  if String.prefix pat s then rep ++ drop (String.length pat) s
  else match s with
       | EmptyString => EmptyString
       | String c s' => String c (replace s' pat rep)
       end.

(** [s.replace(/^\.\//, '')] *)
Definition stripDotSlash (s : string) : string :=
  if String.prefix "./" s then drop 2 s else s.

(** [s.split(sep)] for a one-character separator: [acc] is the piece being
    read. *)
Fixpoint splitAux (sep : ascii) (acc : string) (s : string) : list string :=
  match s with
  | EmptyString => [acc]
  | String c s' =>
      if Ascii.eqb c sep then acc :: splitAux sep EmptyString s'
      else splitAux sep (acc ++ String c EmptyString) s'
  end.

Definition split (s : string) (sep : ascii) : list string :=
  splitAux sep EmptyString s.

(** [parts.join(' ')] *)
Definition join (parts : list string) (sep : string) : string :=
  String.concat sep parts.

(** [String(n)] for a non-negative integer. *)
Definition ofNat (n : nat) : string := NilEmpty.string_of_uint (Nat.to_uint n).

(** Truthiness of a [string | null | undefined] value: defined and not
    empty. *)
Definition truthy (o : option string) : bool :=
  match o with
  | Some s => negb (s =? "")
  | None => false
  end.

(** Truthiness of a string. *)
Definition nonEmpty (s : string) : bool := negb (s =? "").

End Js.

(** ** [server/utils/readme.ts] *)

Module Readme.
Import Js.

Definition ALLOWED_TAGS : list string :=
  [ "h3"; "h4"; "h5"; "h6";
    "p"; "br"; "hr";
    "ul"; "ol"; "li";
    "blockquote"; "pre"; "code";
    "a"; "strong"; "em"; "del"; "s";
    "table"; "thead"; "tbody"; "tr"; "th"; "td";
    "img"; "picture"; "source";
    "details"; "summary";
    "div"; "span";
    "sup"; "sub";
    "kbd"; "mark" ].

Definition ALLOWED_ATTR : list (string * list string) :=
  [ ("a", ["href"; "title"; "target"; "rel"]);
    ("img", ["src"; "alt"; "title"; "width"; "height"]);
    ("source", ["src"; "srcset"; "type"; "media"]);
    ("th", ["colspan"; "rowspan"; "align"]);
    ("td", ["colspan"; "rowspan"; "align"]);
    ("h3", ["id"; "data-level"]);
    ("h4", ["id"; "data-level"]);
    ("h5", ["id"; "data-level"]);
    ("h6", ["id"; "data-level"]);
    ("blockquote", ["data-callout"]);
    ("details", ["open"]);
    ("code", ["class"]);
    ("pre", ["class"; "style"]);
    ("span", ["class"; "style"]);
    ("div", ["class"; "style"]) ].

Definition allowedSchemes : list string := ["http"; "https"; "mailto"].

Definition cdnBase : string := "https://cdn.jsdelivr.net/npm/".

(** [resolveUrl], lines 42-52. *)
Definition resolveUrl (url packageName : string) : string :=
  if negb (nonEmpty url) then url
  else if startsWith url "#" then url
  else if startsWith url "http://" || startsWith url "https://" || startsWith url "//"
  then url
  else cdnBase ++ packageName ++ "/" ++ stripDotSlash url.

(** [resolveImageUrl], lines 57-64. *)
Definition resolveImageUrl (url packageName : string) : string :=
  let resolved := resolveUrl url packageName in
  if includes resolved "github.com" && includes resolved "/blob/"
  then replace resolved "/blob/" "/raw/"
  else resolved.

(** [renderer.heading], lines 76-80; [text] is [parseInline(tokens)]. *)
Definition heading (depth : nat) (text : string) : string :=
  let semanticLevel := Nat.min (depth + 2) 6 in
  "<h" ++ ofNat semanticLevel ++ " data-level=" ++ dq ++ ofNat depth ++ dq ++ ">"
    ++ text ++ "</h" ++ ofNat semanticLevel ++ ">" ++ nl.

(** [renderer.image], lines 109-114. *)
Definition image (packageName href : string) (title : option string) (text : string)
  : string :=
  let resolvedHref := resolveImageUrl href packageName in
  let titleAttr :=
    match title with
    | Some t => if nonEmpty t then " title=" ++ dq ++ t ++ dq else ""
    | None => ""
    end in
  let altAttr := if nonEmpty text then " alt=" ++ dq ++ text ++ dq else "" in
  "<img src=" ++ dq ++ resolvedHref ++ dq ++ altAttr ++ titleAttr ++ ">".

Definition relValue : string := "nofollow noreferrer noopener".
Definition targetValue : string := "_blank".

(** The test [isExternal] of [renderer.link]. *)
Definition isExternal (resolvedHref : string) : bool :=
  startsWith resolvedHref "http://" || startsWith resolvedHref "https://".

(** [renderer.link], lines 117-127; [text] is [parseInline(tokens)]. *)
Definition link (packageName href : string) (title : option string) (text : string)
  : string :=
  let resolvedHref := resolveUrl href packageName in
  let titleAttr :=
    match title with
    | Some t => if nonEmpty t then " title=" ++ dq ++ t ++ dq else ""
    | None => ""
    end in
  let relAttr := if isExternal resolvedHref then " rel=" ++ dq ++ relValue ++ dq else "" in
  let targetAttr :=
    if isExternal resolvedHref then " target=" ++ dq ++ targetValue ++ dq else "" in
  "<a href=" ++ dq ++ resolvedHref ++ dq ++ titleAttr ++ relAttr ++ targetAttr ++ ">"
    ++ text ++ "</a>".

(** *** The parsed document

    The sanitizer works on the elements its HTML parser reports: a tag
    name, the attributes as an object (here in insertion order) and the
    content. *)

Definition Attribs : Type := list (string * string).

Inductive Node : Type :=
| Text (data : string)
| Element (tagName : string) (attribs : Attribs) (children : list Node).

(** [attribs[k]] *)
Fixpoint getAttr (attribs : Attribs) (k : string) : option string :=
  match attribs with
  | [] => None
  | (k', v) :: rest => if k' =? k then Some v else getAttr rest k
  end.

(** [attribs[k] = v]: an existing key keeps its place, a new key goes
    last. *)
Fixpoint setAttr (attribs : Attribs) (k v : string) : Attribs :=
  match attribs with
  | [] => [(k, v)]
  | (k', v') :: rest =>
      if k' =? k then (k', v) :: rest else (k', v') :: setAttr rest k v
  end.

(** The attribute names of an object are pairwise distinct. *)
Definition uniqueNames (attribs : Attribs) : Prop := NoDup (map fst attribs).

(** A document whose elements all have pairwise distinct attribute
    names. *)
Inductive wellFormed : Node -> Prop :=
| wfText data : wellFormed (Text data)
| wfElement tagName attribs children :
    uniqueNames attribs ->
    Forall wellFormed children ->
    wellFormed (Element tagName attribs children).

(** Every element of a forest, with its attributes, in document order. *)
Fixpoint elementsOf (n : Node) : list (string * Attribs) :=
  match n with
  | Text _ => []
  | Element tagName attribs children =>
      (tagName, attribs) :: flat_map elementsOf children
  end.

Definition elements (forest : list Node) : list (string * Attribs) :=
  flat_map elementsOf forest.

(** *** URL schemes *)

Definition isUpper (c : ascii) : bool :=
  let n := nat_of_ascii c in (65 <=? n)%nat && (n <=? 90)%nat.
Definition isLower (c : ascii) : bool :=
  let n := nat_of_ascii c in (97 <=? n)%nat && (n <=? 122)%nat.
Definition isDigit (c : ascii) : bool :=
  let n := nat_of_ascii c in (48 <=? n)%nat && (n <=? 57)%nat.
Definition isLetter (c : ascii) : bool := isUpper c || isLower c.
Definition isSchemeChar (c : ascii) : bool :=
  isLetter c || isDigit c || Ascii.eqb c "." || Ascii.eqb c "-" || Ascii.eqb c "+".
Definition toLower (c : ascii) : ascii :=
  if isUpper c then ascii_of_nat (nat_of_ascii c + 32) else c.

(** Modelled from the spec: how the imported [sanitize-html] package reads
    the scheme of a URL; characters of code 32 and below are ignored. *)
Fixpoint stripControl (s : string) : string :=
  match s with
  | EmptyString => EmptyString
  | String c s' =>
      if (nat_of_ascii c <=? 32)%nat then stripControl s' else String c (stripControl s')
  end.

Fixpoint schemeRest (s : string) : option string :=
  match s with
  | EmptyString => None
  | String c s' =>
      if Ascii.eqb c ":" then Some EmptyString
      else if isSchemeChar c then option_map (String (toLower c)) (schemeRest s')
      else None
  end.

(** Modelled from the spec: the scheme of a URL as the imported
    [sanitize-html] package reads it, lower-cased: a letter, then letters,
    digits, [.], [-] or [+], up to a colon. A URL without one is
    relative. *)
Definition schemeOf (url : string) : option string :=
  match stripControl url with
  | EmptyString => None
  | String c s' =>
      if isLetter c then option_map (String (toLower c)) (schemeRest s') else None
  end.

(** *** The sanitizer *)

(** The options [renderReadmeHtml] passes to [sanitizeHtml]. *)
Record SanitizeOptions : Type := {
  allowedTags : list string;
  allowedAttributes : list (string * list string);
  allowedSchemesOpt : list string;
  transformTags : string -> Attribs -> string * Attribs
}.

Section SanitizeHtml.

(** The srcset parser and printer of the sanitizer: a candidate is a URL
    and its descriptor. *)
Variable parseSrcset : string -> list (string * string).
Variable stringifySrcset : list (string * string) -> string.

Variable o : SanitizeOptions.

Definition tagAllowed (name : string) : bool :=
  existsb (String.eqb name) (allowedTags o).

Fixpoint lookupAttrs (table : list (string * list string)) (name : string)
  : option (list string) :=
  match table with
  | [] => None
  | (t, names) :: rest => if t =? name then Some names else lookupAttrs rest name
  end.

Definition attrAllowed (name a : string) : bool :=
  match lookupAttrs (allowedAttributes o) name with
  | Some names => existsb (String.eqb a) names
  | None => false
  end.

(** Modelled from the spec: the attributes whose value the imported
    [sanitize-html] package checks against the allowed schemes. *)
Definition schemeCheckedAttributes : list string := ["href"; "src"; "cite"].

(** Modelled from the spec: the elements whose text the imported
    [sanitize-html] package drops with them. *)
Definition nonTextTags : list string := ["script"; "style"; "textarea"; "option"].

(** Modelled from the spec: the scheme test of the imported
    [sanitize-html] package: a URL with a scheme outside the allowed ones
    is refused, a URL without a scheme is not. *)
Definition naughtyHref (href : string) : bool :=
  match schemeOf href with
  | None => false
  | Some scheme => negb (existsb (String.eqb scheme) (allowedSchemesOpt o))
  end.

(** The candidates of a srcset whose URL passes the scheme test. *)
Definition keepCandidates (value : string) : list (string * string) :=
  filter (fun c => negb (naughtyHref (fst c))) (parseSrcset value).

(** Modelled from the spec: the attribute filter of the imported
    [sanitize-html] package, which is not part of the sources. An
    attribute not listed for its tag is stripped; a listed one whose
    value is a URL with a scheme outside the allowed ones is stripped;
    a srcset keeps its candidates with an allowed URL and goes when none
    is left. *)
Fixpoint filterAttribs (name : string) (attribs : Attribs) : Attribs :=
  match attribs with
  | [] => []
  | (a, value) :: rest =>
      let rest' := filterAttribs name rest in
      if negb (attrAllowed name a) then rest'
      else if existsb (String.eqb a) schemeCheckedAttributes && naughtyHref value
      then rest'
      else if a =? "srcset" then
        match keepCandidates value with
        | [] => rest'
        | kept => (a, stringifySrcset kept) :: rest'
        end
      else (a, value) :: rest'
  end.

(** Modelled from the spec: the allow-list walk of the imported
    [sanitize-html] package, which is not part of the sources. Each
    element first goes through [transformTags]; an element whose tag is
    not allowed is dropped and its content kept in its place, except
    that script, style, textarea and option elements go with their
    content; an allowed element keeps its filtered attributes. *)
Fixpoint sanitizeNode (n : Node) : list Node :=
  match n with
  | Text data => [Text data]
  | Element tagName attribs children =>
      let '(name, attribs') := transformTags o tagName attribs in
      if tagAllowed name then
        [Element name (filterAttribs name attribs') (flat_map sanitizeNode children)]
      else if existsb (String.eqb name) nonTextTags then []
      else flat_map sanitizeNode children
  end.

Definition sanitizeHtml (dirty : list Node) : list Node :=
  flat_map sanitizeNode dirty.

End SanitizeHtml.

(** *** The options of [renderReadmeHtml], lines 148-169 *)

Section RenderReadmeHtml.

Variable packageName : string.

(** [hasProtocol(href, { acceptRelative: true })] of the imported [ufo]
    package. *)
Variable hasProtocol : string -> bool.

(** [transformTags.img] *)
Definition transformImg (attribs : Attribs) : Attribs :=
  match getAttr attribs "src" with
  | Some src =>
      if nonEmpty src then setAttr attribs "src" (resolveImageUrl src packageName)
      else attribs
  | None => attribs
  end.

(** [transformTags.a] *)
Definition transformA (attribs : Attribs) : Attribs :=
  match getAttr attribs "href" with
  | Some href =>
      if nonEmpty href && hasProtocol href
      then setAttr (setAttr attribs "rel" relValue) "target" targetValue
      else attribs
  | None => attribs
  end.

Definition readmeTransformTags (tagName : string) (attribs : Attribs)
  : string * Attribs :=
  if tagName =? "img" then (tagName, transformImg attribs)
  else if tagName =? "a" then (tagName, transformA attribs)
  else (tagName, attribs).

Definition readmeOptions : SanitizeOptions := {|
  allowedTags := ALLOWED_TAGS;
  allowedAttributes := ALLOWED_ATTR;
  allowedSchemesOpt := allowedSchemes;
  transformTags := readmeTransformTags
|}.

Variable parseSrcset : string -> list (string * string).
Variable stringifySrcset : list (string * string) -> string.

(** The sanitizing step of [renderReadmeHtml] on the parsed [rawHtml]. *)
Definition sanitize (rawHtml : list Node) : list Node :=
  sanitizeHtml parseSrcset stringifySrcset readmeOptions rawHtml.

End RenderReadmeHtml.

End Readme.

(** ** [app/utils/install-command.ts]

    The sources hold two copies of this module. Both declare the same
    options interface, given here once. *)

Module InstallTypes.

(** [JsrPackageInfo] of [#shared/types/jsr], with the fields the callers
    and tests use. *)
Record JsrPackageInfo : Type := {
  jsrExists : bool;
  scope : option string;
  name : option string;
  url : option string;
  latestVersion : option string
}.

(** [InstallCommandOptions]. The dialect is a string: the tests pass an
    identifier outside [PackageManagerId]. *)
Record InstallCommandOptions : Type := {
  packageName : string;
  packageManager : string;
  version : option string;
  jsrInfo : option JsrPackageInfo
}.

(** [ExecuteCommandOptions extends InstallCommandOptions]; an absent flag
    is [false]. *)
Record ExecuteCommandOptions : Type := {
  install :> InstallCommandOptions;
  isBinaryOnly : bool;
  isCreatePackage : bool
}.

(** [jsrInfo?.exists && jsrInfo.scope && jsrInfo.name] *)
Definition jsrAvailable (jsrInfo : option JsrPackageInfo) : option (string * string) :=
  match jsrInfo with
  | Some info =>
      if jsrExists info then
        match scope info, name info with
        | Some s, Some n =>
            if Js.nonEmpty s && Js.nonEmpty n then Some (s, n) else None
        | _, _ => None
        end
      else None
  | None => None
  end.

End InstallTypes.

(** The copy with separate local and remote execute tokens. *)
Module InstallCommand.
Import Js InstallTypes.

Record PackageManager : Type := {
  id : string;
  label : string;
  action : string;
  executeLocal : string;
  executeRemote : string;
  create : string;
  icon : string
}.

Definition packageManagers : list PackageManager :=
  [ {| id := "npm"; label := "npm"; action := "install";
       executeLocal := "npx"; executeRemote := "npx"; create := "npm create";
       icon := "i-simple-icons:npm" |};
    {| id := "pnpm"; label := "pnpm"; action := "add";
       executeLocal := "pnpm exec"; executeRemote := "pnpm dlx"; create := "pnpm create";
       icon := "i-simple-icons:pnpm" |};
    {| id := "yarn"; label := "yarn"; action := "add";
       executeLocal := "npx"; executeRemote := "yarn dlx"; create := "yarn create";
       icon := "i-simple-icons:yarn" |};
    {| id := "bun"; label := "bun"; action := "add";
       executeLocal := "bunx"; executeRemote := "bunx"; create := "bun create";
       icon := "i-simple-icons:bun" |};
    {| id := "deno"; label := "deno"; action := "add";
       executeLocal := "deno run"; executeRemote := "deno run"; create := "deno run";
       icon := "i-simple-icons:deno" |};
    {| id := "vlt"; label := "vlt"; action := "install";
       executeLocal := "vlx"; executeRemote := "vlx"; create := "vlx";
       icon := "i-custom-vlt" |} ].

Definition findManager (pmId : string) : option PackageManager :=
  find (fun p => id p =? pmId) packageManagers.

Definition getPackageSpecifier (options : InstallCommandOptions) : string :=
  if packageManager options =? "deno" then
    match jsrAvailable (jsrInfo options) with
    | Some (s, n) => "jsr:@" ++ s ++ "/" ++ n
    | None => "npm:" ++ packageName options
    end
  else packageName options.

Definition getInstallCommandParts (options : InstallCommandOptions) : list string :=
  match findManager (packageManager options) with
  | None => []
  | Some pm =>
      let spec := getPackageSpecifier options in
      let version := match version options with
                     | Some v => if nonEmpty v then "@" ++ v else ""
                     | None => ""
                     end in
      [label pm; action pm; spec ++ version]
  end.

Definition getInstallCommand (options : InstallCommandOptions) : string :=
  join (getInstallCommandParts options) " ".

Section Execute.

(** [getCreateShortName] of [#shared/utils/package-analysis], which is
    not part of the sources. *)
Variable getCreateShortName : string -> string.

Definition getExecuteCommandParts (options : ExecuteCommandOptions) : list string :=
  match findManager (packageManager options) with
  | None => []
  | Some pm =>
      let shortName := getCreateShortName (packageName options) in
      if isCreatePackage options && negb (shortName =? packageName options)
      then (split (create pm) " " ++ [shortName])%list
      else
        let executeCmd :=
          if isBinaryOnly options then executeRemote pm else executeLocal pm in
        (split executeCmd " " ++ [getPackageSpecifier options])%list
  end.

Definition getExecuteCommand (options : ExecuteCommandOptions) : string :=
  join (getExecuteCommandParts options) " ".

End Execute.

End InstallCommand.

(** The copy with a single execute token. *)
Module InstallCommandUnified.
Import Js InstallTypes.

Record PackageManager : Type := {
  id : string;
  label : string;
  action : string;
  execute : string;
  icon : string
}.

Definition packageManagers : list PackageManager :=
  [ {| id := "npm"; label := "npm"; action := "install"; execute := "npx";
       icon := "i-simple-icons:npm" |};
    {| id := "pnpm"; label := "pnpm"; action := "add"; execute := "pnpm dlx";
       icon := "i-simple-icons:pnpm" |};
    {| id := "yarn"; label := "yarn"; action := "add"; execute := "yarn dlx";
       icon := "i-simple-icons:yarn" |};
    {| id := "bun"; label := "bun"; action := "add"; execute := "bunx";
       icon := "i-simple-icons:bun" |};
    {| id := "deno"; label := "deno"; action := "add"; execute := "deno run";
       icon := "i-simple-icons:deno" |};
    {| id := "vlt"; label := "vlt"; action := "install"; execute := "vlt x";
       icon := "i-custom-vlt" |} ].

Definition findManager (pmId : string) : option PackageManager :=
  find (fun p => id p =? pmId) packageManagers.

Definition getPackageSpecifier (options : InstallCommandOptions) : string :=
  if packageManager options =? "deno" then
    match jsrAvailable (jsrInfo options) with
    | Some (s, n) => "jsr:@" ++ s ++ "/" ++ n
    | None => "npm:" ++ packageName options
    end
  else packageName options.

Definition getInstallCommandParts (options : InstallCommandOptions) : list string :=
  match findManager (packageManager options) with
  | None => []
  | Some pm =>
      let spec := getPackageSpecifier options in
      let version := match version options with
                     | Some v => if nonEmpty v then "@" ++ v else ""
                     | None => ""
                     end in
      [label pm; action pm; spec ++ version]
  end.

Definition getInstallCommand (options : InstallCommandOptions) : string :=
  join (getInstallCommandParts options) " ".

Definition getExecuteCommandParts (options : InstallCommandOptions) : list string :=
  match findManager (packageManager options) with
  | None => []
  | Some pm => [execute pm; getPackageSpecifier options]
  end.

Definition getExecuteCommand (options : InstallCommandOptions) : string :=
  join (getExecuteCommandParts options) " ".

End InstallCommandUnified.

(** ** More JavaScript string primitives *)

Module JsText.

(** [s.replace(/c/g, rep)] for a one-character pattern: every occurrence
    is replaced. *)
Fixpoint replaceAllChar (c : ascii) (rep : string) (s : string) : string :=
  match s with
  | EmptyString => EmptyString
  | String x s' =>
      if Ascii.eqb x c then rep ++ replaceAllChar c rep s'
      else String x (replaceAllChar c rep s')
  end.

(** [s.slice(0, n)] *)
Fixpoint take (n : nat) (s : string) : string :=
  match n, s with
  | O, _ => EmptyString
  | S _, EmptyString => EmptyString
  | S n', String c s' => String c (take n' s')
  end.

(** [s.endsWith(suffix)] *)
Definition endsWith (s suffix : string) : bool :=
  (String.length suffix <=? String.length s)%nat &&
  (Js.drop (String.length s - String.length suffix) s =? suffix).

(** [s.replace(/^prefix/, rep)] for a literal prefix. *)
Definition replacePrefix (prefix rep s : string) : string :=
  if Js.startsWith s prefix then rep ++ Js.drop (String.length prefix) s else s.

(** [s.replace(/suffix$/, '')] for a literal suffix. *)
Definition stripSuffix (suffix s : string) : string :=
  if endsWith s suffix then take (String.length s - String.length suffix) s else s.

(** The text before the first [sep] and the text after it, when there is
    one. *)
Fixpoint cutAt (sep : ascii) (s : string) : option (string * string) :=
  match s with
  | EmptyString => None
  | String c s' =>
      if Ascii.eqb c sep then Some (EmptyString, s')
      else match cutAt sep s' with
           | Some (before, after) => Some (String c before, after)
           | None => None
           end
  end.

(** A literal of a regular expression with the [i] flag, matched at the
    start of [s]: what follows the match. Only the two cases of an ASCII
    letter are equal under the flag. *)
Fixpoint matchLiteralCI (pat s : string) : option string :=
  match pat with
  | EmptyString => Some s
  | String p pat' =>
      match s with
      | EmptyString => None
      | String c s' =>
          if Ascii.eqb (Readme.toLower c) (Readme.toLower p)
          then matchLiteralCI pat' s' else None
      end
  end.

(** The one-byte white space of [\s]: tab, line feed, vertical tab, form
    feed, carriage return, space. *)
Definition asciiSpace (n : nat) : bool :=
  ((9 <=? n)%nat && (n <=? 13)%nat) || (n =? 32)%nat.

(** The three-byte white space of [\s] in UTF-8: U+1680, U+2000 to U+200A,
    U+2028, U+2029, U+202F, U+205F, U+3000 and U+FEFF. *)
Definition threeByteSpace (a b c : nat) : bool :=
  ((a =? 225)%nat && (b =? 154)%nat && (c =? 128)%nat) ||
  ((a =? 226)%nat && (b =? 128)%nat &&
   (((128 <=? c)%nat && (c <=? 138)%nat) || (c =? 168)%nat || (c =? 169)%nat
    || (c =? 175)%nat)) ||
  ((a =? 226)%nat && (b =? 129)%nat && (c =? 159)%nat) ||
  ((a =? 227)%nat && (b =? 128)%nat && (c =? 128)%nat) ||
  ((a =? 239)%nat && (b =? 187)%nat && (c =? 191)%nat).

(** [\s*] at the start of [s]: what follows the white space; U+00A0 is the
    two bytes 194, 160. *)
Fixpoint skipWhitespace (s : string) : string :=
  match s with
  | EmptyString => EmptyString
  | String c1 s1 =>
      if asciiSpace (nat_of_ascii c1) then skipWhitespace s1
      else
        match s1 with
        | EmptyString => s
        | String c2 s2 =>
            if (nat_of_ascii c1 =? 194)%nat && (nat_of_ascii c2 =? 160)%nat
            then skipWhitespace s2
            else
              match s2 with
              | EmptyString => s
              | String c3 s3 =>
                  if threeByteSpace (nat_of_ascii c1) (nat_of_ascii c2) (nat_of_ascii c3)
                  then skipWhitespace s3 else s
              end
        end
  end.

(** [array.indexOf(x)], with [None] for -1. *)
Fixpoint indexOf (l : list string) (x : string) : option nat :=
  match l with
  | [] => None
  | y :: rest =>
      if y =? x then Some O
      else match indexOf rest x with
           | Some i => Some (S i)
           | None => None
           end
  end.

(** [array.sort(cmp)]: the sort is stable, and with a consistent
    comparator its result is the one this insertion gives: an element goes
    before the first one the comparator does not put it after. *)
Fixpoint insertSorted {A : Type} (cmp : A -> A -> Z) (x : A) (l : list A) : list A :=
  match l with
  | [] => [x]
  | y :: rest => if (cmp x y <=? 0)%Z then x :: l else y :: insertSorted cmp x rest
  end.

Definition sort {A : Type} (cmp : A -> A -> Z) (l : list A) : list A :=
  fold_right (insertSorted cmp) [] l.

End JsText.

(** ** [server/utils/readme.ts], the code and blockquote renderers *)

Module ReadmeRenderer.
Import Js JsText.

(** The three replacements of [renderer.code], lines 101-104. *)
Definition escapeCode (text : string) : string :=
  replaceAllChar ">" "&gt;" (replaceAllChar "<" "&lt;" (replaceAllChar "&" "&amp;" text)).

(** The plain code block, line 105. *)
Definition plainCode (language text : string) : string :=
  "<pre><code class=" ++ dq ++ "language-" ++ language ++ dq ++ ">" ++ escapeCode text
    ++ "</code></pre>" ++ nl.

Section Code.

(** The shared highlighter: the languages it has loaded, and
    [codeToHtml], which may throw ([None]). *)
Variable loadedLanguages : list string.
Variable codeToHtml : string -> string -> option string.

(** [renderer.code], lines 83-106. *)
Definition code (text : string) (lang : option string) : string :=
  let language := match lang with
                  | Some l => if nonEmpty l then l else "text"
                  | None => "text"
                  end in
  if existsb (String.eqb language) loadedLanguages then
    match codeToHtml text language with
    | Some html => html
    | None => plainCode language text
    end
  else plainCode language text.

End Code.

(** The callout types of the regular expression of line 133, as
    [toLowerCase] leaves them. *)
Definition calloutNames : list string := ["note"; "tip"; "important"; "warning"; "caution"].

(** The alternation of the regular expression, followed by the closing
    bracket: the first type that matches, and what follows the bracket. *)
Fixpoint matchCalloutName (names : list string) (s : string) : option (string * string) :=
  match names with
  | [] => None
  | n :: rest =>
      match matchLiteralCI (n ++ "]") s with
      | Some after => Some (n, after)
      | None => matchCalloutName rest s
      end
  end.

(** [body.match(/^<p>\[!(NOTE|TIP|IMPORTANT|WARNING|CAUTION)\](?:<br>)?\s*/i)]:
    the callout type in lower case, the matched text and what follows
    it. *)
Definition matchCallout (body : string) : option (string * string * string) :=
  match matchLiteralCI "<p>[!" body with
  | None => None
  | Some s1 =>
      match matchCalloutName calloutNames s1 with
      | None => None
      | Some (calloutType, s2) =>
          let s3 := match matchLiteralCI "<br>" s2 with
                    | Some after => after
                    | None => s2
                    end in
          let rest := skipWhitespace s3 in
          Some (calloutType, take (String.length body - String.length rest) body, rest)
      end
  end.

(** [renderer.blockquote], lines 130-142; [body] is [parse(tokens)]. *)
Definition blockquote (body : string) : string :=
  match matchCallout body with
  | Some (calloutType, matched, _) =>
      let cleanedBody := replace body matched "<p>" in
      "<blockquote data-callout=" ++ dq ++ calloutType ++ dq ++ ">" ++ cleanedBody
        ++ "</blockquote>" ++ nl
  | None => "<blockquote>" ++ body ++ "</blockquote>" ++ nl
  end.

End ReadmeRenderer.

(** ** [app/pages/[...package].vue], the script of the package page *)

Module Page.
Import Js JsText InstallTypes.

(** [parsedRoute], lines 19-35: the segments of the route after the first
    [v] are the requested version, when there are any. A first index is
    below the length, so the subtraction is exact. *)
Definition parsedRoute (segments : list string) : string * option string :=
  match indexOf segments "v" with
  | Some vIndex =>
      if (vIndex <? List.length segments - 1)%nat
      then (join (firstn vIndex segments) "/", Some (join (skipn (S vIndex) segments) "/"))
      else (join segments "/", None)
  | None => (join segments "/", None)
  end.

(** [orgName], lines 41-46, with the regular expression [^@([^/]+)\/]. *)
Definition orgName (name : string) : option string :=
  if negb (startsWith name "@") then None
  else match cutAt "/" (drop 1 name) with
       | Some (org, _) => if nonEmpty org then Some org else None
       | None => None
       end.

(** [normalizeGitUrl], lines 114-121. *)
Definition normalizeGitUrl (url : string) : string :=
  replacePrefix "git@github.com:" "https://github.com/"
    (replacePrefix "ssh://git@github.com" "https://github.com"
       (stripSuffix ".git"
          (replacePrefix "git://" "https://"
             (replacePrefix "git+" "" url)))).

(** [canonicalUrl], lines 226-229. *)
Definition canonicalUrl (packageName : string) (requestedVersion : option string) : string :=
  let base := "https://npmx.dev/" ++ packageName in
  match requestedVersion with
  | Some v => if nonEmpty v then base ++ "/v/" ++ v else base
  | None => base
  end.

(** The preference read back in [onMounted], lines 153-161: [selectedPM]
    starts as [npm] and takes the stored value only when it is the id of a
    package manager. *)
Definition restoreSelectedPM (stored : option string) : string :=
  match stored with
  | Some s =>
      if nonEmpty s && existsb (fun pm => InstallCommand.id pm =? s) InstallCommand.packageManagers
      then s else "npm"
  | None => "npm"
  end.

(** [installCommandParts], lines 168-176; [pkgName] is [pkg.value?.name]. *)
Definition installCommandParts (pkgName : option string) (selectedPM : string)
  (requestedVersion : option string) (jsrInfo : option JsrPackageInfo) : list string :=
  match pkgName with
  | None => []
  | Some name =>
      InstallCommand.getInstallCommandParts
        {| packageName := name; packageManager := selectedPM;
           version := requestedVersion; jsrInfo := jsrInfo |}
  end.

(** [installCommand], lines 178-186. *)
Definition installCommand (pkgName : option string) (selectedPM : string)
  (requestedVersion : option string) (jsrInfo : option JsrPackageInfo) : string :=
  match pkgName with
  | None => EmptyString
  | Some name =>
      InstallCommand.getInstallCommand
        {| packageName := name; packageManager := selectedPM;
           version := requestedVersion; jsrInfo := jsrInfo |}
  end.

End Page.

(** ** [app/components/PackageDependencies.vue] *)

Module Dependencies.
Import Js JsText.

Record PeerDependency : Type := {
  name : string;
  version : string;
  optional : bool
}.

(** [peerDependenciesMeta?.[name]?.optional ?? false] *)
Fixpoint lookupOptional (meta : list (string * option bool)) (name : string) : bool :=
  match meta with
  | [] => false
  | (k, o) :: rest =>
      if k =? name then match o with Some b => b | None => false end
      else lookupOptional rest name
  end.

Section Sorted.

(** [String.prototype.localeCompare]: negative, zero or positive. *)
Variable localeCompare : string -> string -> Z.

(** [sortedDependencies], lines 14-17; the entries are those of
    [Object.entries]. *)
Definition sortedDependencies (dependencies : option (list (string * string)))
  : list (string * string) :=
  match dependencies with
  | None => []
  | Some entries => sort (fun a b => localeCompare (fst a) (fst b)) entries
  end.

(** The comparator of lines 29-33: required first, then optional, each by
    name. *)
Definition comparePeers (a b : PeerDependency) : Z :=
  if negb (Bool.eqb (optional a) (optional b))
  then (if optional a then 1 else -1)%Z
  else localeCompare (name a) (name b).

(** [sortedPeerDependencies], lines 20-34. *)
Definition sortedPeerDependencies (peerDependencies : option (list (string * string)))
  (peerDependenciesMeta : option (list (string * option bool))) : list PeerDependency :=
  match peerDependencies with
  | None => []
  | Some entries =>
      sort comparePeers
        (map (fun e =>
                {| name := fst e; version := snd e;
                   optional := match peerDependenciesMeta with
                               | Some meta => lookupOptional meta (fst e)
                               | None => false
                               end |})
             entries)
  end.

End Sorted.

End Dependencies.

(** * Vocabulary of the properties *)

Module Vocabulary.
Import Js Readme.

(** The prefixes [resolveUrl] tests for. *)
Definition startsAbsoluteOrFragment (url : string) : bool :=
  startsWith url "#" || startsWith url "http://" || startsWith url "https://"
  || startsWith url "//".

(** The last step of [resolveImageUrl]. *)
Definition blobToRaw (resolved : string) : string :=
  if includes resolved "github.com" && includes resolved "/blob/"
  then replace resolved "/blob/" "/raw/"
  else resolved.

(** The decimal digit [n], for [n] below ten. *)
Definition digit (n : nat) : string := String (ascii_of_nat (48 + n)) EmptyString.

(** A quoted attribute, as the renderer writes it. *)
Definition attr (name value : string) : string :=
  " " ++ name ++ "=" ++ dq ++ value ++ dq.

(** The title attribute of a link or an image. *)
Definition titleAttr (title : option string) : string :=
  match title with
  | Some t => if nonEmpty t then attr "title" t else ""
  | None => ""
  end.

(** The attributes [renderer.link] adds to an external link. *)
Definition securityAttrs : string := attr "rel" relValue ++ attr "target" targetValue.

(** The suffix [@<version>] of an install command; an absent or empty
    version gives none. *)
Definition versionSuffix (version : option string) : string :=
  match version with
  | Some v => if nonEmpty v then "@" ++ v else ""
  | None => ""
  end.

(** The six dialects. *)
Definition knownDialects : list string := ["npm"; "pnpm"; "yarn"; "bun"; "deno"; "vlt"].

(** An optional field that is absent, null or empty. *)
Definition missing (field : option string) : Prop := truthy field = false.

(** The options of a local execute: not binary only, not a create
    package. *)
Definition localExecute (o : InstallTypes.InstallCommandOptions)
  : InstallTypes.ExecuteCommandOptions :=
  {| InstallTypes.install := o;
     InstallTypes.isBinaryOnly := false;
     InstallTypes.isCreatePackage := false |}.

(** The options of the examples. *)
Definition jsrFound : InstallTypes.JsrPackageInfo :=
  {| InstallTypes.jsrExists := true; InstallTypes.scope := Some "trpc";
     InstallTypes.name := Some "server";
     InstallTypes.url := Some "https://jsr.io/@trpc/server";
     InstallTypes.latestVersion := Some "10.0.0" |}.

Definition jsrNotFound : InstallTypes.JsrPackageInfo :=
  {| InstallTypes.jsrExists := false; InstallTypes.scope := None;
     InstallTypes.name := None; InstallTypes.url := None;
     InstallTypes.latestVersion := None |}.

Definition installOptions (packageName packageManager : string) (version : option string)
  (jsrInfo : option InstallTypes.JsrPackageInfo) : InstallTypes.InstallCommandOptions :=
  {| InstallTypes.packageName := packageName;
     InstallTypes.packageManager := packageManager;
     InstallTypes.version := version;
     InstallTypes.jsrInfo := jsrInfo |}.

(** The elements the sanitizer must never let through. *)
Definition bannedTags : list string := ["script"; "style"; "iframe"].

Fixpoint lowerCase (s : string) : string :=
  match s with
  | EmptyString => EmptyString
  | String c s' => String (toLower c) (lowerCase s')
  end.

(** An event-handler attribute: its name starts with [on], in any case. *)
Definition isEventHandler (a : string) : bool := startsWith (lowerCase a) "on".

(** A URL whose scheme, if it has one, is an allowed one. *)
Definition allowedUrl (url : string) : Prop :=
  forall scheme, schemeOf url = Some scheme -> In scheme allowedSchemes.

(** An attribute of the output: no event handler; a URL attribute holds
    an allowed URL; a srcset is the printed form of candidates that all
    hold an allowed URL. *)
Definition safeAttribute (stringifySrcset : list (string * string) -> string)
  (av : string * string) : Prop :=
  isEventHandler (fst av) = false /\
  (In (fst av) ["href"; "src"; "cite"] -> allowedUrl (snd av)) /\
  (fst av = "srcset" ->
   exists candidates,
     candidates <> [] /\ snd av = stringifySrcset candidates /\
     Forall (fun c => allowedUrl (fst c)) candidates).

(** An element of the output: an allowed tag, none of the banned ones,
    with attributes listed for that tag and safe. *)
Definition safeElement (stringifySrcset : list (string * string) -> string)
  (e : string * Attribs) : Prop :=
  In (fst e) ALLOWED_TAGS /\ ~ In (fst e) bannedTags /\
  (forall a v, In (a, v) (snd e) ->
               exists names, In (fst e, names) ALLOWED_ATTR /\ In a names) /\
  Forall (safeAttribute stringifySrcset) (snd e).

(** No image source of the forest is still a GitHub blob URL. *)
Definition blobFree (forest : list Node) : Prop :=
  Forall (fun e : string * Attribs =>
            fst e = "img" ->
            forall src, getAttr (snd e) "src" = Some src ->
                        includes src "github.com" && includes src "/blob/" = false)
         (elements forest).

(** Reading back a printed srcset gives the candidates that were
    printed. *)
Definition srcsetRoundTrip (o : SanitizeOptions)
  (parseSrcset : string -> list (string * string))
  (stringifySrcset : list (string * string) -> string) : Prop :=
  forall value,
    keepCandidates parseSrcset o value <> [] ->
    parseSrcset (stringifySrcset (keepCandidates parseSrcset o value)) =
    keepCandidates parseSrcset o value.

(** A srcset reader and printer for one candidate without descriptor. *)
Definition parseOne (value : string) : list (string * string) :=
  if nonEmpty value then [(value, EmptyString)] else [].

Definition printOne (candidates : list (string * string)) : string :=
  match candidates with
  | [(u, _)] => u
  | _ => EmptyString
  end.

(** A document with an image whose source goes through two directories
    named blob. *)
Definition blobTwice : list Node :=
  [Element "img" [("src", "https://github.com/o/r/blob/main/blob/logo.png")] []].

(** A small README. *)
Definition sampleReadme : list Node :=
  [Element "div" [("class", "intro"); ("onclick", "alert(1)")]
     [Element "img" [("src", "./logo.png"); ("alt", "logo")] [];
      Element "a" [("href", "https://example.com"); ("title", "site")] [Text "site"];
      Element "picture" []
        [Element "source" [("srcset", "https://example.com/a.png")] []];
      Element "script" [] [Text "alert(1)"];
      Element "center" [] [Text "kept text"]]].

(** A stand-in for [hasProtocol] with [acceptRelative]: the URL has a
    scheme or starts with two slashes. *)
Definition schemeOrRelative (href : string) : bool :=
  match schemeOf href with
  | Some _ => true
  | None => startsWith href "//"
  end.

End Vocabulary.

Import Vocabulary.

Module MoreVocabulary.
Import Js JsText.

(** Reading an escaped code text back: the three entities become the
    characters they stand for. *)
Fixpoint unescapeCode (s : string) : string :=
  match s with
  | EmptyString => EmptyString
  | String c s' =>
      match c, s' with
      | "&"%char, String "a" (String "m" (String "p" (String ";" rest))) =>
          String "&" (unescapeCode rest)
      | "&"%char, String "l" (String "t" (String ";" rest)) =>
          String "<" (unescapeCode rest)
      | "&"%char, String "g" (String "t" (String ";" rest)) =>
          String ">" (unescapeCode rest)
      | _, _ => String c (unescapeCode s')
      end
  end.

(** What follows an optional [<br>], in any case, and white space. *)
Definition afterMarker (s : string) : string :=
  skipWhitespace (match matchLiteralCI "<br>" s with
                  | Some after => after
                  | None => s
                  end).

(** A token without a space. *)
Definition spaceFree (token : string) : bool := negb (includes token " ").

(** A segment of a path: no slash in it. *)
Definition slashFree (segment : string) : bool := negb (includes segment "/").

(** The comparator never puts [a] after [b]. *)
Definition notAfter {A : Type} (cmp : A -> A -> Z) (a b : A) : Prop := (cmp a b <= 0)%Z.

(** A consistent comparator: of two elements one is not after the other,
    and not being after is transitive. *)
Definition consistent {A : Type} (cmp : A -> A -> Z) : Prop :=
  (forall a b, (0 < cmp a b)%Z -> (cmp b a <= 0)%Z) /\
  (forall a b c, (cmp a b <= 0)%Z -> (cmp b c <= 0)%Z -> (cmp a c <= 0)%Z).

(** A comparison of names by their bytes, as a stand-in for
    [localeCompare]. *)
Definition byteCompare (a b : string) : Z :=
  match String.compare a b with
  | Lt => (-1)%Z
  | Eq => 0%Z
  | Gt => 1%Z
  end.

End MoreVocabulary.

Import MoreVocabulary.

(** * Properties *)

(** ** URL resolution *)

Section UrlResolution.
Import Js Readme.

Lemma nonEmpty_false_iff (s : string) : nonEmpty s = false <-> s = "".
Proof.
  unfold nonEmpty. destruct (String.eqb_spec s ""); simpl; split; congruence.
Qed.

Lemma nonEmpty_true_iff (s : string) : nonEmpty s = true <-> s <> "".
Proof.
  unfold nonEmpty. destruct (String.eqb_spec s ""); simpl; split; congruence.
Qed.

Lemma resolveUrl_empty (p : string) : resolveUrl "" p = "".
Proof. reflexivity. Qed.

Lemma resolveUrl_passes (url p : string) :
  startsAbsoluteOrFragment url = true -> resolveUrl url p = url.
Proof.
  unfold startsAbsoluteOrFragment, resolveUrl. intros H.
  destruct (nonEmpty url); simpl; [|reflexivity].
  destruct (startsWith url "#"); [reflexivity|].
  simpl in H. rewrite H. reflexivity.
Qed.

Lemma resolveUrl_relative (url p : string) :
  url <> "" -> startsAbsoluteOrFragment url = false ->
  resolveUrl url p = cdnBase ++ p ++ "/" ++ stripDotSlash url.
Proof.
  unfold startsAbsoluteOrFragment, resolveUrl. intros Hne H.
  apply nonEmpty_true_iff in Hne. rewrite Hne. simpl.
  destruct (startsWith url "#"); [discriminate|].
  simpl in H. rewrite H. reflexivity.
Qed.

Lemma cdn_isExternal (rest : string) : isExternal (cdnBase ++ rest) = true.
Proof. reflexivity. Qed.

Lemma cdn_startsAbsolute (rest : string) :
  startsAbsoluteOrFragment (cdnBase ++ rest) = true.
Proof. reflexivity. Qed.

(** Whatever [resolveUrl] returns is empty or starts with one of the four
    prefixes. *)
Lemma resolveUrl_shape (url p : string) :
  resolveUrl url p = "" \/ startsAbsoluteOrFragment (resolveUrl url p) = true.
Proof.
  destruct (String.eqb_spec url "") as [->|Hne]; [left; reflexivity|].
  right. destruct (startsAbsoluteOrFragment url) eqn:E.
  - rewrite resolveUrl_passes by assumption. assumption.
  - rewrite resolveUrl_relative by assumption. apply cdn_startsAbsolute.
Qed.

Lemma resolveUrl_idempotent (url p : string) :
  resolveUrl (resolveUrl url p) p = resolveUrl url p.
Proof.
  destruct (resolveUrl_shape url p) as [H|H].
  - rewrite H. reflexivity.
  - apply resolveUrl_passes, H.
Qed.

Lemma stripDotSlash_strips (rest : string) : stripDotSlash ("./" ++ rest) = rest.
Proof. destruct rest; reflexivity. Qed.

Lemma stripDotSlash_keeps (url : string) :
  startsWith url "./" = false -> stripDotSlash url = url.
Proof. unfold stripDotSlash, startsWith. intros ->. reflexivity. Qed.

Lemma append_assoc (a b c : string) : (a ++ b) ++ c = a ++ (b ++ c).
Proof. induction a as [|x a IH]; simpl; [reflexivity | rewrite IH; reflexivity]. Qed.

Lemma prefix_app (pat rest : string) : String.prefix pat (pat ++ rest) = true.
Proof.
  induction pat as [|c pat IH]; simpl.
  - destruct rest; reflexivity.
  - rewrite IH. destruct (ascii_dec c c); congruence.
Qed.

Lemma drop_app (pat rest : string) : drop (String.length pat) (pat ++ rest) = rest.
Proof. induction pat; simpl; auto. Qed.

Lemma includes_unfold (s pat : string) :
  includes s pat =
  String.prefix pat s ||
  match s with
  | EmptyString => false
  | String _ s' => includes s' pat
  end.
Proof. destruct s; reflexivity. Qed.

Lemma includes_app (before pat rest : string) :
  includes (before ++ pat ++ rest) pat = true.
Proof.
  induction before as [|c before IH].
  - simpl. rewrite includes_unfold, prefix_app. reflexivity.
  - change (String c before ++ pat ++ rest) with (String c (before ++ pat ++ rest)).
    rewrite includes_unfold, IH. apply orb_true_r.
Qed.

Lemma replace_unfold (s pat rep : string) :
  replace s pat rep =
  if String.prefix pat s then rep ++ drop (String.length pat) s
  else match s with
       | EmptyString => EmptyString
       | String c s' => String c (replace s' pat rep)
       end.
Proof. destruct s; reflexivity. Qed.

(** [replace] rewrites the first occurrence of the pattern: when the
    pattern matches at no position inside [before], the occurrence that
    follows [before] is the one replaced. *)
Lemma replace_first_occurrence (pat rep before rest : string) :
  (forall b1 b2, before = b1 ++ b2 -> b2 <> "" ->
                 String.prefix pat (b2 ++ pat ++ rest) = false) ->
  replace (before ++ pat ++ rest) pat rep = before ++ rep ++ rest.
Proof.
  induction before as [|c before IH]; intros Hfirst.
  - simpl. rewrite replace_unfold, prefix_app, drop_app. reflexivity.
  - change ((String c before) ++ pat ++ rest) with (String c (before ++ pat ++ rest)).
    assert (Hhead : String.prefix pat (String c (before ++ pat ++ rest)) = false)
      by (apply (Hfirst "" (String c before)); [reflexivity | discriminate]).
    rewrite replace_unfold, Hhead.
    change ((String c before) ++ rep ++ rest) with (String c (before ++ rep ++ rest)).
    f_equal. apply IH. intros b1 b2 -> Hb2.
    apply (Hfirst (String c b1) b2 eq_refl Hb2).
Qed.

Lemma prefix_empty (s : string) : String.prefix "" s = true.
Proof. destruct s; reflexivity. Qed.

Lemma prefix_cons_eq (a b : ascii) (s1 s2 : string) :
  String.prefix (String a s1) (String b s2) = Ascii.eqb a b && String.prefix s1 s2.
Proof.
  cbn [String.prefix].
  destruct (ascii_dec a b) as [->|Hne].
  - rewrite Ascii.eqb_refl. reflexivity.
  - apply Ascii.eqb_neq in Hne. rewrite Hne. reflexivity.
Qed.

Lemma prefix_split (pat s : string) :
  String.prefix pat s = true -> s = pat ++ drop (String.length pat) s.
Proof.
  revert s. induction pat as [|a pat IH]; intros s; [reflexivity|].
  destruct s as [|b s]; [intros H; discriminate H|].
  rewrite prefix_cons_eq. intros H. apply andb_true_iff in H. destruct H as [Hab Hp].
  apply Ascii.eqb_eq in Hab. subst b. simpl. f_equal. apply IH, Hp.
Qed.

Lemma replace_blob_head_other (c : ascii) (s : string) :
  Ascii.eqb "/" c = false ->
  replace (String c s) "/blob/" "/raw/" = String c (replace s "/blob/" "/raw/").
Proof. intros H. rewrite replace_unfold, prefix_cons_eq, H. reflexivity. Qed.

Lemma replace_blob_head_slash (s : string) :
  exists t, replace (String "/" s) "/blob/" "/raw/" = String "/" t.
Proof.
  rewrite replace_unfold. destruct (String.prefix "/blob/" (String "/" s)); eexists; reflexivity.
Qed.

Lemma replace_blob_two_slashes (s : string) :
  exists t, replace (String "/" (String "/" s)) "/blob/" "/raw/" = String "/" (String "/" t).
Proof.
  destruct (replace_blob_head_slash s) as [t Ht]. exists t.
  assert (Hhead : String.prefix "/blob/" (String "/" (String "/" s)) = false)
    by (rewrite !prefix_cons_eq; reflexivity).
  rewrite replace_unfold, Hhead, Ht. reflexivity.
Qed.

(** The blob to raw rewrite keeps the leading [#], [http://], [https://]
    or [//] of a URL. *)
Lemma replace_blob_keeps_prefix (url : string) :
  startsAbsoluteOrFragment url = true ->
  startsAbsoluteOrFragment (replace url "/blob/" "/raw/") = true.
Proof.
  unfold startsAbsoluteOrFragment, startsWith. intros H.
  apply orb_true_iff in H. destruct H as [H | H];
    [apply orb_true_iff in H; destruct H as [H | H];
     [apply orb_true_iff in H; destruct H as [H | H]|]|];
    apply prefix_split in H; revert H;
    generalize (drop (String.length "#") url), (drop (String.length "http://") url),
      (drop (String.length "https://") url), (drop (String.length "//") url);
    intros r1 r2 r3 r4 ->; cbn [String.append].
  - rewrite replace_blob_head_other by reflexivity.
    rewrite prefix_cons_eq, prefix_empty. reflexivity.
  - rewrite !replace_blob_head_other by reflexivity.
    destruct (replace_blob_two_slashes r2) as [t ->].
    rewrite !prefix_cons_eq, !prefix_empty. reflexivity.
  - rewrite !replace_blob_head_other by reflexivity.
    destruct (replace_blob_two_slashes r3) as [t ->].
    rewrite !prefix_cons_eq, !prefix_empty. reflexivity.
  - destruct (replace_blob_two_slashes r4) as [t ->].
    rewrite !prefix_cons_eq, !prefix_empty. reflexivity.
Qed.

Lemma blobToRaw_shape (resolved : string) :
  resolved = "" \/ startsAbsoluteOrFragment resolved = true ->
  blobToRaw resolved = "" \/ startsAbsoluteOrFragment (blobToRaw resolved) = true.
Proof.
  intros [-> | H]; [left; reflexivity|]. right. unfold blobToRaw.
  destruct (_ && _); [apply replace_blob_keeps_prefix, H | exact H].
Qed.

(** An image source that is no longer a blob URL is resolved to itself. *)
Lemma resolveImageUrl_fixed (url p : string) :
  includes (resolveImageUrl url p) "github.com"
    && includes (resolveImageUrl url p) "/blob/" = false ->
  resolveImageUrl (resolveImageUrl url p) p = resolveImageUrl url p.
Proof.
  intros Hfree.
  assert (Hresolve : resolveUrl (resolveImageUrl url p) p = resolveImageUrl url p).
  { change (resolveImageUrl url p) with (blobToRaw (resolveUrl url p)).
    destruct (blobToRaw_shape _ (resolveUrl_shape url p)) as [H | H].
    - rewrite H. reflexivity.
    - apply resolveUrl_passes, H. }
  unfold resolveImageUrl at 1. rewrite Hresolve, Hfree. reflexivity.
Qed.

End UrlResolution.

(** ** Headings *)

Section Headings.
Import Js Readme.

Lemma sanitizeHtml_singleton ps ss o (n : Node) :
  sanitizeHtml ps ss o [n] = sanitizeNode ps ss o n.
Proof. unfold sanitizeHtml. simpl. apply app_nil_r. Qed.

(** C3. A heading of original level [d] between 1 and 6 is rendered as an
    element [h<l>] with [l = min (d + 2) 6], which lies between 3 and 6,
    carrying [data-level="d"]; that tag and that attribute are on the
    allow lists, so the sanitizer keeps the element with its attribute.
    In particular a level 1 heading "Title" is rendered as an [h3] with
    [data-level="1"]. *)
Theorem heading_semantic_level (d : nat) (text : string) :
  1 <= d <= 6 ->
  exists level : nat,
    level = Nat.min (d + 2) 6 /\ 3 <= level <= 6 /\
    heading d text =
      "<h" ++ digit level ++ attr "data-level" (digit d) ++ ">" ++ text
        ++ "</h" ++ digit level ++ ">" ++ nl /\
    In ("h" ++ digit level) ALLOWED_TAGS /\
    (forall packageName hasProtocol ps ss children,
        sanitize packageName hasProtocol ps ss
          [Element ("h" ++ digit level) [("data-level", digit d)] children] =
        [Element ("h" ++ digit level) [("data-level", digit d)]
           (sanitize packageName hasProtocol ps ss children)]) /\
    heading 1 "Title" = "<h3 data-level=" ++ dq ++ "1" ++ dq ++ ">Title</h3>" ++ nl.
Proof.
  intros [Hlo Hhi].
  assert (Hd : d = 1 \/ d = 2 \/ d = 3 \/ d = 4 \/ d = 5 \/ d = 6) by lia.
  exists (Nat.min (d + 2) 6).
  split; [reflexivity|]. split; [lia|].
  destruct Hd as [->|[->|[->|[->|[->| ->]]]]];
    (split; [reflexivity|]; split; [simpl; tauto|]; split; [|reflexivity];
     intros; unfold sanitize; rewrite sanitizeHtml_singleton; reflexivity).
Qed.

Lemma heading_semantic_level_witness :
  1 <= 1 <= 6 /\
  exists level : nat,
    level = Nat.min (1 + 2) 6 /\ 3 <= level <= 6 /\
    heading 1 "Title" =
      "<h" ++ digit level ++ attr "data-level" (digit 1) ++ ">" ++ "Title"
        ++ "</h" ++ digit level ++ ">" ++ nl /\
    In ("h" ++ digit level) ALLOWED_TAGS /\
    (forall packageName hasProtocol ps ss children,
        sanitize packageName hasProtocol ps ss
          [Element ("h" ++ digit level) [("data-level", digit 1)] children] =
        [Element ("h" ++ digit level) [("data-level", digit 1)]
           (sanitize packageName hasProtocol ps ss children)]) /\
    heading 1 "Title" = "<h3 data-level=" ++ dq ++ "1" ++ dq ++ ">Title</h3>" ++ nl.
Proof.
  assert (Hlevel : 1 <= 1 <= 6) by lia.
  split; [exact Hlevel | exact (heading_semantic_level 1 "Title" Hlevel)].
Defined.

End Headings.

(** ** Image sources *)

Section Images.
Import Js Readme.

Lemma resolveImageUrl_blobToRaw (url p : string) :
  resolveImageUrl url p = blobToRaw (resolveUrl url p).
Proof. reflexivity. Qed.

(** C4, the claim as stated fails at the empty URL: it starts with none of
    the four prefixes, yet it is returned as it is and not rewritten to
    the CDN. *)
Lemma resolveImageUrl_empty_not_cdn :
  startsAbsoluteOrFragment "" = false /\
  resolveImageUrl "" "foo" = "" /\
  resolveImageUrl "" "foo" <> "https://cdn.jsdelivr.net/npm/foo/".
Proof. repeat split. discriminate. Qed.

(** C4, amended. The empty URL is returned unchanged. A URL that starts
    with [http://], [https://], [//] or [#] is resolved to itself; every
    other non-empty URL is resolved to the CDN URL of the package followed
    by the URL with one leading [./] stripped. An image source is the
    resolved URL, except that when it contains [github.com] and [/blob/]
    its first [/blob/] is replaced by [/raw/]. So [./img.png] in package
    [foo] becomes [https://cdn.jsdelivr.net/npm/foo/img.png]. *)
Theorem resolveImageUrl_cases (url p : string) :
  (url = "" -> resolveUrl url p = "") /\
  (startsAbsoluteOrFragment url = true -> resolveUrl url p = url) /\
  (url <> "" -> startsAbsoluteOrFragment url = false ->
   resolveUrl url p = "https://cdn.jsdelivr.net/npm/" ++ p ++ "/" ++ stripDotSlash url) /\
  (forall rest, stripDotSlash ("./" ++ rest) = rest) /\
  (startsWith url "./" = false -> stripDotSlash url = url) /\
  (includes (resolveUrl url p) "github.com" && includes (resolveUrl url p) "/blob/" = false ->
   resolveImageUrl url p = resolveUrl url p) /\
  (forall before rest,
      includes (resolveUrl url p) "github.com" = true ->
      resolveUrl url p = before ++ "/blob/" ++ rest ->
      (forall b1 b2, before = b1 ++ b2 -> b2 <> "" ->
                     String.prefix "/blob/" (b2 ++ "/blob/" ++ rest) = false) ->
      resolveImageUrl url p = before ++ "/raw/" ++ rest) /\
  resolveImageUrl "./img.png" "foo" = "https://cdn.jsdelivr.net/npm/foo/img.png".
Proof.
  split; [intros ->; reflexivity|].
  split; [apply resolveUrl_passes|].
  split; [apply resolveUrl_relative|].
  split; [apply stripDotSlash_strips|].
  split; [apply stripDotSlash_keeps|].
  split.
  - intros H. unfold resolveImageUrl. rewrite H. reflexivity.
  - split; [|reflexivity].
    intros before rest Hgh Heq Hfirst. unfold resolveImageUrl.
    rewrite Hgh. simpl andb.
    assert (Hblob : includes (resolveUrl url p) "/blob/" = true).
    { rewrite Heq. apply includes_app. }
    rewrite Hblob, Heq. apply replace_first_occurrence, Hfirst.
Qed.

Lemma resolveImageUrl_cases_witness :
  "docs/a.png" <> "" /\ startsAbsoluteOrFragment "docs/a.png" = false /\
  resolveUrl "docs/a.png" "foo" =
    "https://cdn.jsdelivr.net/npm/" ++ "foo" ++ "/" ++ stripDotSlash "docs/a.png".
Proof.
  split; [discriminate|]. split; [reflexivity|].
  destruct (resolveImageUrl_cases "docs/a.png" "foo") as (_ & _ & Hrel & _).
  apply Hrel; [discriminate | reflexivity].
Defined.

End Images.

(** ** Links *)

Section Links.
Import Js Readme.

Lemma fragment_not_external (url : string) :
  startsWith url "#" = true -> isExternal url = false.
Proof.
  destruct url as [|c url]; [reflexivity|].
  unfold startsWith, isExternal, startsWith. rewrite !prefix_cons_eq.
  destruct (Ascii.eqb_spec "#" c) as [<-|]; [reflexivity | intros H; discriminate H].
Qed.

Lemma protocol_relative_not_external (url : string) :
  startsWith url "//" = true -> isExternal url = false.
Proof.
  destruct url as [|c url]; [reflexivity|].
  unfold startsWith, isExternal, startsWith. rewrite !prefix_cons_eq.
  destruct (Ascii.eqb_spec "/" c) as [<-|]; [reflexivity | intros H; discriminate H].
Qed.

(** Which links [renderer.link] treats as external, by their written
    href. *)
Lemma isExternal_resolveUrl (href p : string) :
  isExternal (resolveUrl href p) = false <->
  href = "" \/ startsWith href "#" = true \/ startsWith href "//" = true.
Proof.
  destruct (String.eqb_spec href "") as [->|Hne].
  { split; [left; reflexivity | reflexivity]. }
  destruct (startsAbsoluteOrFragment href) eqn:Habs.
  - rewrite resolveUrl_passes by assumption.
    unfold startsAbsoluteOrFragment in Habs.
    destruct (startsWith href "#") eqn:Hf.
    { split; [tauto | intros _; apply fragment_not_external, Hf]. }
    destruct (startsWith href "//") eqn:Hp.
    { split; [tauto | intros _; apply protocol_relative_not_external, Hp]. }
    simpl in Habs. rewrite orb_false_r in Habs.
    unfold isExternal. rewrite Habs.
    split; [discriminate | intros [?|[?|?]]; congruence].
  - rewrite resolveUrl_relative by assumption. rewrite cdn_isExternal.
    unfold startsAbsoluteOrFragment in Habs.
    apply orb_false_iff in Habs. destruct Habs as [Habs Hp].
    apply orb_false_iff in Habs. destruct Habs as [Habs _].
    apply orb_false_iff in Habs. destruct Habs as [Hf _].
    split; [discriminate | intros [?|[?|?]]; congruence].
Qed.

Lemma getAttr_setAttr_same (attribs : Attribs) (k v : string) :
  getAttr (setAttr attribs k v) k = Some v.
Proof.
  induction attribs as [|[k' v'] rest IH]; simpl.
  - rewrite String.eqb_refl. reflexivity.
  - destruct (k' =? k) eqn:E; simpl; rewrite E; [reflexivity | exact IH].
Qed.

Lemma getAttr_setAttr_other (attribs : Attribs) (k k' v : string) :
  k <> k' -> getAttr (setAttr attribs k v) k' = getAttr attribs k'.
Proof.
  intros Hne. induction attribs as [|[k0 v0] rest IH]; simpl.
  - apply String.eqb_neq in Hne. rewrite Hne. reflexivity.
  - destruct (String.eqb_spec k0 k) as [->|Hk]; simpl.
    + apply String.eqb_neq in Hne. rewrite Hne. reflexivity.
    + rewrite IH. reflexivity.
Qed.

(** C5, the claim as stated fails for a relative link: [./docs] is not an
    absolute http or https URL, yet the link is emitted with both [rel]
    and [target], because its href was resolved to the CDN first. *)
Lemma link_relative_gets_rel_and_target :
  startsAbsoluteOrFragment "./docs" = false /\
  link "foo" "./docs" None "docs" =
    "<a href=" ++ dq ++ "https://cdn.jsdelivr.net/npm/foo/docs" ++ dq
      ++ " rel=" ++ dq ++ "nofollow noreferrer noopener" ++ dq
      ++ " target=" ++ dq ++ "_blank" ++ dq ++ ">docs</a>" /\
  includes (link "foo" "./docs" None "docs") " rel=" = true /\
  includes (link "foo" "./docs" None "docs") " target=" = true.
Proof. repeat split. Qed.

(** C5, amended. The href of a rendered link is [resolveUrl] of the
    written href, the resolution of images without the blob to raw step.
    [renderer.link] adds [rel="nofollow noreferrer noopener"] and
    [target="_blank"] exactly when the resolved href starts with [http://]
    or [https://]; so absolute http and https links get both, and so does
    every relative link, whose href resolves to the CDN; only an empty
    href, a fragment and a protocol-relative href get neither. In the
    sanitizer, [transformTags.a] sets both attributes on an element whose
    href is not empty and has a protocol, and leaves any other element as
    it is. *)
Theorem link_rel_target (p href : string) (title : option string) (text : string) :
  link p href title text =
    "<a" ++ attr "href" (resolveUrl href p) ++ titleAttr title
      ++ (if isExternal (resolveUrl href p) then securityAttrs else "")
      ++ ">" ++ text ++ "</a>" /\
  resolveImageUrl href p = blobToRaw (resolveUrl href p) /\
  (isExternal (resolveUrl href p) = false <->
   href = "" \/ startsWith href "#" = true \/ startsWith href "//" = true) /\
  (forall hasProtocol attribs h,
      getAttr attribs "href" = Some h -> h <> "" -> hasProtocol h = true ->
      getAttr (transformA hasProtocol attribs) "href" = Some h /\
      getAttr (transformA hasProtocol attribs) "rel" = Some relValue /\
      getAttr (transformA hasProtocol attribs) "target" = Some targetValue) /\
  (forall hasProtocol attribs,
      (forall h, getAttr attribs "href" = Some h -> h = "" \/ hasProtocol h = false) ->
      transformA hasProtocol attribs = attribs).
Proof.
  split.
  { unfold link, attr, titleAttr, securityAttrs, attr.
    destruct title as [t|]; [destruct (nonEmpty t)|];
      destruct (isExternal (resolveUrl href p)); simpl;
      rewrite ?append_assoc; reflexivity. }
  split; [reflexivity|].
  split; [apply isExternal_resolveUrl|].
  split.
  - intros hasProtocol attribs h Hget Hne Hproto. unfold transformA.
    rewrite Hget, Hproto. apply nonEmpty_true_iff in Hne. rewrite Hne. simpl.
    rewrite getAttr_setAttr_same.
    rewrite (getAttr_setAttr_other _ "target" "rel"), getAttr_setAttr_same by discriminate.
    rewrite !getAttr_setAttr_other by discriminate. auto.
  - intros hasProtocol attribs H. unfold transformA.
    destruct (getAttr attribs "href") as [h|]; [|reflexivity].
    destruct (H h eq_refl) as [-> | ->]; [reflexivity|].
    rewrite andb_false_r. reflexivity.
Qed.

Lemma link_rel_target_witness :
  getAttr [("href", "https://example.com")] "href" = Some "https://example.com" /\
  getAttr (transformA (fun _ => true) [("href", "https://example.com")]) "rel"
    = Some relValue.
Proof.
  split; [reflexivity|].
  destruct (link_rel_target "foo" "x" None "x") as (_ & _ & _ & Hset & _).
  apply (Hset (fun _ => true) [("href", "https://example.com")] "https://example.com");
    [reflexivity | discriminate | reflexivity].
Defined.

(** C10, the claim as stated fails at the empty URL, which starts with
    none of the four prefixes and still passes through, and at a URL with
    a leading [./], which is not appended as it is. *)
Lemma resolveUrl_other_pass_through :
  startsAbsoluteOrFragment "" = false /\
  resolveUrl "" "foo" = "" /\
  resolveUrl "" "foo" <> "https://cdn.jsdelivr.net/npm/foo/" /\
  startsAbsoluteOrFragment "./a" = false /\
  resolveUrl "./a" "foo" = "https://cdn.jsdelivr.net/npm/foo/a" /\
  resolveUrl "./a" "foo" <> "https://cdn.jsdelivr.net/npm/foo/./a".
Proof. repeat split; discriminate. Qed.

(** C10, amended. [resolveUrl] returns a URL unchanged exactly when it is
    empty or starts with [#], [http://], [https://] or [//]; every other
    URL, whatever scheme it carries, is rewritten to the CDN URL of the
    package followed by the URL with one leading [./] stripped. So
    [mailto:user@example.com], although [mailto] is an allowed scheme of
    the sanitizer, becomes a CDN URL, as a link href and as an image
    source. *)
Theorem resolveUrl_pass_through_cases (url p : string) :
  (resolveUrl url p = url <-> url = "" \/ startsAbsoluteOrFragment url = true) /\
  (url <> "" -> startsAbsoluteOrFragment url = false ->
   resolveUrl url p = "https://cdn.jsdelivr.net/npm/" ++ p ++ "/" ++ stripDotSlash url) /\
  In "mailto" allowedSchemes /\
  resolveUrl "mailto:user@example.com" p =
    "https://cdn.jsdelivr.net/npm/" ++ p ++ "/mailto:user@example.com" /\
  resolveImageUrl "mailto:user@example.com" "foo" =
    "https://cdn.jsdelivr.net/npm/foo/mailto:user@example.com" /\
  link "foo" "mailto:user@example.com" None "mail" =
    "<a" ++ attr "href" "https://cdn.jsdelivr.net/npm/foo/mailto:user@example.com"
      ++ securityAttrs ++ ">mail</a>" /\
  resolveUrl "data:image/png;base64,AAAA" p =
    "https://cdn.jsdelivr.net/npm/" ++ p ++ "/data:image/png;base64,AAAA".
Proof.
  split.
  { split.
    - intros Heq. destruct (String.eqb_spec url "") as [|Hne]; [left; assumption|].
      right. destruct (startsAbsoluteOrFragment url) eqn:E; [reflexivity|].
      rewrite resolveUrl_relative in Heq by assumption.
      rewrite <- Heq, cdn_startsAbsolute in E. discriminate E.
    - intros [-> | H]; [reflexivity | apply resolveUrl_passes, H]. }
  split; [apply resolveUrl_relative|].
  split; [simpl; tauto|].
  repeat split.
Qed.

Lemma resolveUrl_pass_through_cases_witness :
  "tel:123" <> "" /\ startsAbsoluteOrFragment "tel:123" = false /\
  resolveUrl "tel:123" "foo" =
    "https://cdn.jsdelivr.net/npm/" ++ "foo" ++ "/" ++ stripDotSlash "tel:123".
Proof.
  split; [discriminate|]. split; [reflexivity|].
  destruct (resolveUrl_pass_through_cases "tel:123" "foo") as (_ & Hrel & _).
  apply Hrel; [discriminate | reflexivity].
Defined.

End Links.

(** ** Install commands *)

Section InstallCommands.
Import Js InstallTypes.

Lemma specifier_modules_agree (o : InstallCommandOptions) :
  InstallCommandUnified.getPackageSpecifier o = InstallCommand.getPackageSpecifier o.
Proof. reflexivity. Qed.

Lemma truthy_Some (s : string) : truthy (Some s) = nonEmpty s.
Proof. reflexivity. Qed.

(** C6. For deno, when [jsrInfo] has [exists] true and both scope and name
    present, the specifier is [jsr:@<scope>/<name>]; for deno with
    [jsrInfo] absent or null, with [exists] false, or with scope or name
    missing, it is [npm:<packageName>]; for any other dialect it is the
    package name. Both copies of the module compute the same
    specifier. *)
Theorem getPackageSpecifier_cases (o : InstallCommandOptions) :
  (forall info s n,
      packageManager o = "deno" -> jsrInfo o = Some info -> jsrExists info = true ->
      scope info = Some s -> name info = Some n -> s <> "" -> n <> "" ->
      InstallCommand.getPackageSpecifier o = "jsr:@" ++ s ++ "/" ++ n) /\
  (packageManager o = "deno" ->
   (jsrInfo o = None \/
    exists info, jsrInfo o = Some info /\
                 (jsrExists info = false \/ missing (scope info) \/ missing (name info))) ->
   InstallCommand.getPackageSpecifier o = "npm:" ++ packageName o) /\
  (packageManager o <> "deno" -> InstallCommand.getPackageSpecifier o = packageName o) /\
  InstallCommandUnified.getPackageSpecifier o = InstallCommand.getPackageSpecifier o.
Proof.
  unfold InstallCommand.getPackageSpecifier, jsrAvailable, missing.
  split; [|split; [|split; [|reflexivity]]].
  - intros info s n -> -> -> -> -> Hs Hn. simpl.
    apply nonEmpty_true_iff in Hs, Hn. rewrite Hs, Hn. reflexivity.
  - intros -> [-> | (info & -> & H)]; simpl; [reflexivity|].
    destruct (jsrExists info); [|reflexivity].
    destruct H as [H | [H | H]]; [discriminate H | |].
    + destruct (scope info) as [s|]; [|reflexivity].
      rewrite truthy_Some in H. rewrite H. destruct (name info); reflexivity.
    + destruct (scope info) as [s|]; [|reflexivity].
      destruct (name info) as [n|]; [|reflexivity].
      rewrite truthy_Some in H. rewrite H, andb_false_r. reflexivity.
  - intros Hne. apply String.eqb_neq in Hne. rewrite Hne. reflexivity.
Qed.

Lemma getPackageSpecifier_cases_witness :
  InstallCommand.getPackageSpecifier
    (installOptions "@trpc/server" "deno" None (Some jsrFound)) = "jsr:@trpc/server" /\
  InstallCommand.getPackageSpecifier
    (installOptions "@trpc/server" "deno" None (Some jsrNotFound)) = "npm:@trpc/server" /\
  InstallCommand.getPackageSpecifier
    (installOptions "@trpc/server" "pnpm" None (Some jsrFound)) = "@trpc/server".
Proof.
  split; [|split].
  - apply (proj1 (getPackageSpecifier_cases
                    (installOptions "@trpc/server" "deno" None (Some jsrFound)))
             jsrFound "trpc" "server"); try reflexivity; discriminate.
  - apply (proj1 (proj2 (getPackageSpecifier_cases
                    (installOptions "@trpc/server" "deno" None (Some jsrNotFound))))).
    + reflexivity.
    + right. exists jsrNotFound. split; [reflexivity|]. left. reflexivity.
  - apply (proj1 (proj2 (proj2 (getPackageSpecifier_cases
                    (installOptions "@trpc/server" "pnpm" None (Some jsrFound)))))).
    discriminate.
Defined.

Lemma findManager_known (pm : InstallCommand.PackageManager) :
  In pm InstallCommand.packageManagers ->
  InstallCommand.findManager (InstallCommand.id pm) = Some pm.
Proof.
  intros H. simpl in H.
  repeat (destruct H as [<- | H]; [reflexivity|]). contradiction.
Qed.

Lemma find_unknown {A : Type} (getId : A -> string) (x : string) (l : list A) :
  ~ In x (map getId l) -> find (fun p => getId p =? x) l = None.
Proof.
  induction l as [|p l IH]; simpl; [reflexivity|]. intros H.
  destruct (String.eqb_spec (getId p) x) as [E|_]; [tauto|].
  apply IH. tauto.
Qed.

Lemma findManager_unknown (pmId : string) :
  ~ In pmId knownDialects -> InstallCommand.findManager pmId = None.
Proof. exact (find_unknown InstallCommand.id pmId InstallCommand.packageManagers). Qed.

Lemma unified_findManager_unknown (pmId : string) :
  ~ In pmId knownDialects -> InstallCommandUnified.findManager pmId = None.
Proof.
  exact (find_unknown InstallCommandUnified.id pmId InstallCommandUnified.packageManagers).
Qed.

(** C7. For a dialect of the table, [getInstallCommandParts] is the
    three-element list of the dialect label, its install verb and the
    specifier, followed by [@<version>] when a version is given, and
    [getInstallCommand] is these parts joined by single spaces; for any
    other dialect the parts are the empty list and the command is the
    empty string. The function is total: no input raises. *)
Theorem getInstallCommand_cases (o : InstallCommandOptions) :
  map InstallCommand.id InstallCommand.packageManagers = knownDialects /\
  map (fun pm => (InstallCommand.label pm, InstallCommand.action pm))
      InstallCommand.packageManagers =
    [("npm", "install"); ("pnpm", "add"); ("yarn", "add"); ("bun", "add");
     ("deno", "add"); ("vlt", "install")] /\
  (forall pm,
      In pm InstallCommand.packageManagers ->
      packageManager o = InstallCommand.id pm ->
      InstallCommand.getInstallCommandParts o =
        [InstallCommand.label pm; InstallCommand.action pm;
         InstallCommand.getPackageSpecifier o ++ versionSuffix (version o)] /\
      InstallCommand.getInstallCommand o =
        InstallCommand.label pm ++ " " ++ InstallCommand.action pm ++ " "
          ++ InstallCommand.getPackageSpecifier o ++ versionSuffix (version o)) /\
  (~ In (packageManager o) knownDialects ->
   InstallCommand.getInstallCommandParts o = [] /\
   InstallCommand.getInstallCommand o = "").
Proof.
  split; [reflexivity|]. split; [reflexivity|]. split.
  - intros pm Hin Hid.
    unfold InstallCommand.getInstallCommand, InstallCommand.getInstallCommandParts.
    rewrite Hid, (findManager_known pm Hin). split; reflexivity.
  - intros Hunknown.
    unfold InstallCommand.getInstallCommand, InstallCommand.getInstallCommandParts.
    rewrite (findManager_unknown _ Hunknown). split; reflexivity.
Qed.

Lemma getInstallCommand_cases_witness :
  InstallCommand.getInstallCommand (installOptions "lodash" "npm" None None)
    = "npm install lodash" /\
  InstallCommand.getInstallCommand
    (installOptions "lodash" "deno" (Some "4.17.21") (Some jsrNotFound))
    = "deno add npm:lodash@4.17.21" /\
  InstallCommand.getInstallCommandParts (installOptions "lodash" "invalid" None None) = [] /\
  InstallCommand.getInstallCommand (installOptions "lodash" "invalid" None None) = "".
Proof.
  split; [|split].
  - destruct (getInstallCommand_cases (installOptions "lodash" "npm" None None))
      as (_ & _ & Hknown & _).
    refine (proj2 (Hknown (nth 0 InstallCommand.packageManagers
                             (InstallCommand.Build_PackageManager "" "" "" "" "" "" ""))
                     _ eq_refl)).
    simpl. tauto.
  - destruct (getInstallCommand_cases
                (installOptions "lodash" "deno" (Some "4.17.21") (Some jsrNotFound)))
      as (_ & _ & Hknown & _).
    refine (proj2 (Hknown (nth 4 InstallCommand.packageManagers
                             (InstallCommand.Build_PackageManager "" "" "" "" "" "" ""))
                     _ eq_refl)).
    simpl. tauto.
  - destruct (getInstallCommand_cases (installOptions "lodash" "invalid" None None))
      as (_ & _ & _ & Hunknown).
    apply Hunknown. simpl. intros H.
    repeat (destruct H as [H | H]; [discriminate H|]). exact H.
Defined.

(** C8, the claim as stated fails for pnpm, which is neither yarn nor
    vlt: the local execute of the first copy is [pnpm exec], the second
    copy gives the single token [pnpm dlx]. *)
Lemma execute_modules_differ_for_pnpm :
  InstallCommand.getExecuteCommandParts (fun n => n)
    (localExecute (installOptions "eslint" "pnpm" None None)) = ["pnpm"; "exec"; "eslint"] /\
  InstallCommandUnified.getExecuteCommandParts
    (installOptions "eslint" "pnpm" None None) = ["pnpm dlx"; "eslint"] /\
  InstallCommand.getExecuteCommand (fun n => n)
    (localExecute (installOptions "eslint" "pnpm" None None)) = "pnpm exec eslint" /\
  InstallCommandUnified.getExecuteCommand
    (installOptions "eslint" "pnpm" None None) = "pnpm dlx eslint" /\
  InstallCommand.getExecuteCommandParts (fun n => n)
    (localExecute (installOptions "eslint" "pnpm" None None)) <>
  InstallCommandUnified.getExecuteCommandParts (installOptions "eslint" "pnpm" None None).
Proof. repeat split. discriminate. Qed.

Lemma local_parts getCreateShortName (o : InstallCommandOptions) pm :
  InstallCommand.findManager (packageManager o) = Some pm ->
  InstallCommand.getExecuteCommandParts getCreateShortName (localExecute o) =
    (split (InstallCommand.executeLocal pm) " " ++ [InstallCommand.getPackageSpecifier o])%list.
Proof.
  intros H. unfold InstallCommand.getExecuteCommandParts. simpl. rewrite H. reflexivity.
Qed.

Lemma unified_parts (o : InstallCommandOptions) pm :
  InstallCommandUnified.findManager (packageManager o) = Some pm ->
  InstallCommandUnified.getExecuteCommandParts o =
    [InstallCommandUnified.execute pm; InstallCommand.getPackageSpecifier o].
Proof.
  intros H. unfold InstallCommandUnified.getExecuteCommandParts. rewrite H. reflexivity.
Qed.

Lemma install_parts_agree (o : InstallCommandOptions) :
  InstallCommandUnified.getInstallCommandParts o = InstallCommand.getInstallCommandParts o.
Proof.
  unfold InstallCommandUnified.getInstallCommandParts, InstallCommand.getInstallCommandParts.
  rewrite specifier_modules_agree.
  generalize (InstallCommand.getPackageSpecifier o) (version o). intros spec v.
  destruct (in_dec string_dec (packageManager o) knownDialects) as [Hin|Hout].
  - simpl in Hin.
    repeat (destruct Hin as [<- | Hin]; [reflexivity|]). contradiction.
  - rewrite (findManager_unknown _ Hout), (unified_findManager_unknown _ Hout).
    reflexivity.
Qed.

Ltac known_dialect getCreateShortName o E :=
  let H1 := fresh in
  let H2 := fresh in
  eassert (H1 : InstallCommand.findManager (packageManager o) = Some _)
    by (rewrite E; reflexivity);
  eassert (H2 : InstallCommandUnified.findManager (packageManager o) = Some _)
    by (rewrite E; reflexivity);
  unfold InstallCommand.getExecuteCommand, InstallCommandUnified.getExecuteCommand;
  rewrite (local_parts getCreateShortName o _ H1), (unified_parts o _ H2);
  clear H1 H2; rewrite E; simpl;
  generalize (InstallCommand.getPackageSpecifier o); intros spec;
  repeat split; intros H; try reflexivity; try discriminate H;
  try (exfalso; apply H; tauto);
  try (intros Hin; repeat (destruct Hin as [Hin | Hin]; [discriminate Hin|]); exact Hin).

(** C8, amended. The two copies agree on [getInstallCommandParts] for
    every input. For a local execute, their [getExecuteCommandParts]
    differ for pnpm ([pnpm exec] against the single token [pnpm dlx]),
    yarn ([npx] against [yarn dlx]), deno (the tokens [deno], [run]
    against the single token [deno run]) and vlt ([vlx] against [vlt x]),
    and agree for npm, bun and any unknown dialect; joined into a command
    they differ for pnpm, yarn and vlt only. *)
Theorem install_modules_compared (getCreateShortName : string -> string)
  (o : InstallCommandOptions) :
  InstallCommandUnified.getInstallCommandParts o = InstallCommand.getInstallCommandParts o /\
  map (fun pm => (InstallCommand.id pm, split (InstallCommand.executeLocal pm) " "))
      InstallCommand.packageManagers =
    [("npm", ["npx"]); ("pnpm", ["pnpm"; "exec"]); ("yarn", ["npx"]); ("bun", ["bunx"]);
     ("deno", ["deno"; "run"]); ("vlt", ["vlx"])] /\
  map (fun pm => (InstallCommandUnified.id pm, [InstallCommandUnified.execute pm]))
      InstallCommandUnified.packageManagers =
    [("npm", ["npx"]); ("pnpm", ["pnpm dlx"]); ("yarn", ["yarn dlx"]); ("bun", ["bunx"]);
     ("deno", ["deno run"]); ("vlt", ["vlt x"])] /\
  (InstallCommand.getExecuteCommandParts getCreateShortName (localExecute o) =
   InstallCommandUnified.getExecuteCommandParts o
   <-> ~ In (packageManager o) ["pnpm"; "yarn"; "deno"; "vlt"]) /\
  (InstallCommand.getExecuteCommand getCreateShortName (localExecute o) =
   InstallCommandUnified.getExecuteCommand o
   <-> ~ In (packageManager o) ["pnpm"; "yarn"; "vlt"]).
Proof.
  split; [apply install_parts_agree|]. split; [reflexivity|]. split; [reflexivity|].
  destruct (String.eqb_spec (packageManager o) "npm") as [E|N1];
    [known_dialect getCreateShortName o E|].
  destruct (String.eqb_spec (packageManager o) "pnpm") as [E|N2];
    [known_dialect getCreateShortName o E|].
  destruct (String.eqb_spec (packageManager o) "yarn") as [E|N3];
    [known_dialect getCreateShortName o E|].
  destruct (String.eqb_spec (packageManager o) "bun") as [E|N4];
    [known_dialect getCreateShortName o E|].
  destruct (String.eqb_spec (packageManager o) "deno") as [E|N5];
    [known_dialect getCreateShortName o E|].
  destruct (String.eqb_spec (packageManager o) "vlt") as [E|N6];
    [known_dialect getCreateShortName o E|].
  assert (Hunknown : ~ In (packageManager o) knownDialects).
  { simpl. intros H. repeat (destruct H as [H | H]; [congruence|]). exact H. }
  unfold InstallCommand.getExecuteCommand, InstallCommandUnified.getExecuteCommand,
    InstallCommand.getExecuteCommandParts, InstallCommandUnified.getExecuteCommandParts.
  simpl packageManager.
  rewrite (findManager_unknown _ Hunknown), (unified_findManager_unknown _ Hunknown).
  repeat split; try reflexivity;
    intros _ Hin; simpl in Hin;
    repeat (destruct Hin as [Hin | Hin]; [congruence|]); exact Hin.
Qed.

End InstallCommands.

(** ** The sanitizer *)

Section Sanitizer.
Import Js Readme.

Variable packageName : string.
Variable hasProtocol : string -> bool.
Variable parseSrcset : string -> list (string * string).
Variable stringifySrcset : list (string * string) -> string.

Local Abbreviation sanitizeN := (sanitizeNode parseSrcset stringifySrcset
                               (readmeOptions packageName hasProtocol)).
Local Abbreviation sanitizeF := (sanitize packageName hasProtocol parseSrcset stringifySrcset).
Local Abbreviation filterA := (filterAttribs parseSrcset stringifySrcset
                             (readmeOptions packageName hasProtocol)).
Local Abbreviation opts := (readmeOptions packageName hasProtocol).

(** Induction on a document: the content of an element satisfies the
    property. *)
Lemma Node_forest_ind (P : Node -> Prop) :
  (forall data, P (Text data)) ->
  (forall tagName attribs children,
      Forall P children -> P (Element tagName attribs children)) ->
  forall n, P n.
Proof.
  intros HText HElement.
  fix IH 1. intros [data | tagName attribs children].
  - apply HText.
  - apply HElement. induction children as [|c children IHc]; constructor.
    + apply IH.
    + exact IHc.
Qed.

Lemma elements_app (l1 l2 : list Node) :
  elements (l1 ++ l2) = (elements l1 ++ elements l2)%list.
Proof. unfold elements. apply flat_map_app. Qed.

Lemma sanitize_cons (n : Node) (rest : list Node) :
  sanitizeF (n :: rest) = (sanitizeN n ++ sanitizeF rest)%list.
Proof. reflexivity. Qed.

Lemma sanitize_app (l1 l2 : list Node) :
  sanitizeF (l1 ++ l2) = (sanitizeF l1 ++ sanitizeF l2)%list.
Proof. unfold sanitize, sanitizeHtml. apply flat_map_app. Qed.

Lemma existsb_eqb_In (x : string) (l : list string) :
  existsb (String.eqb x) l = true <-> In x l.
Proof.
  rewrite existsb_exists. split.
  - intros (y & Hin & Heq). apply String.eqb_eq in Heq. subst. exact Hin.
  - intros Hin. exists x. split; [exact Hin | apply String.eqb_refl].
Qed.

Lemma tagAllowed_In (name : string) :
  tagAllowed opts name = true <-> In name ALLOWED_TAGS.
Proof. apply existsb_eqb_In. Qed.

Lemma lookupAttrs_In table name names :
  lookupAttrs table name = Some names -> In (name, names) table.
Proof.
  induction table as [|[t ns] rest IH]; simpl; [discriminate|].
  destruct (String.eqb_spec t name) as [->|_].
  - intros [= ->]. left. reflexivity.
  - intros H. right. apply IH, H.
Qed.

Lemma attrAllowed_listed (name a : string) :
  attrAllowed opts name a = true ->
  exists names, In (name, names) ALLOWED_ATTR /\ In a names.
Proof.
  unfold attrAllowed. simpl allowedAttributes.
  destruct (lookupAttrs ALLOWED_ATTR name) as [names|] eqn:E; [|discriminate].
  intros H. exists names. split.
  - apply lookupAttrs_In, E.
  - apply existsb_eqb_In, H.
Qed.

(** No attribute name of the allow list is an event handler. *)
Lemma listed_not_event_handler (name : string) (names : list string) (a : string) :
  In (name, names) ALLOWED_ATTR -> In a names -> isEventHandler a = false.
Proof.
  intros Hin Ha. simpl in Hin.
  repeat (destruct Hin as [[= <- <-] | Hin];
          [simpl in Ha; repeat (destruct Ha as [<- | Ha]; [reflexivity|]); contradiction|]).
  contradiction.
Qed.

Lemma not_naughty_allowed (url : string) :
  naughtyHref opts url = false -> allowedUrl url.
Proof.
  unfold naughtyHref, allowedUrl. intros H scheme Hs. rewrite Hs in H.
  apply negb_false_iff in H. apply existsb_eqb_In in H. exact H.
Qed.

Lemma keepCandidates_allowed (value : string) :
  Forall (fun c => allowedUrl (fst c)) (keepCandidates parseSrcset opts value).
Proof.
  unfold keepCandidates. apply Forall_forall. intros c Hc.
  apply filter_In in Hc. destruct Hc as [_ Hc].
  apply not_naughty_allowed. apply negb_true_iff, Hc.
Qed.

Lemma filterAttribs_cons (name a value : string) (rest : Attribs) :
  filterA name ((a, value) :: rest) =
  if negb (attrAllowed opts name a) then filterA name rest
  else if existsb (String.eqb a) schemeCheckedAttributes && naughtyHref opts value
  then filterA name rest
  else if a =? "srcset" then
    match keepCandidates parseSrcset opts value with
    | [] => filterA name rest
    | kept => (a, stringifySrcset kept) :: filterA name rest
    end
  else (a, value) :: filterA name rest.
Proof. reflexivity. Qed.

Lemma filterAttribs_listed (name : string) (attribs : Attribs) :
  forall a v, In (a, v) (filterA name attribs) ->
              exists names, In (name, names) ALLOWED_ATTR /\ In a names.
Proof.
  induction attribs as [|[a0 v0] rest IH]; [contradiction|].
  intros a v. rewrite filterAttribs_cons.
  destruct (attrAllowed opts name a0) eqn:Hallowed; cbn [negb]; [|apply IH].
  destruct (existsb (String.eqb a0) schemeCheckedAttributes && naughtyHref opts v0);
    [apply IH|].
  destruct (String.eqb_spec a0 "srcset") as [->|Hsrcset].
  - destruct (keepCandidates parseSrcset opts v0) as [|c kept]; [apply IH|].
    intros [[= <- _] | Hin]; [apply attrAllowed_listed, Hallowed | apply IH with v, Hin].
  - intros [[= <- _] | Hin]; [apply attrAllowed_listed, Hallowed | apply IH with v, Hin].
Qed.

Lemma filterAttribs_safe (name : string) (attribs : Attribs) :
  Forall (safeAttribute stringifySrcset) (filterA name attribs).
Proof.
  induction attribs as [|[a v] rest IH]; [constructor|].
  rewrite filterAttribs_cons.
  destruct (attrAllowed opts name a) eqn:Hallowed; cbn [negb]; [|exact IH].
  destruct (attrAllowed_listed _ _ Hallowed) as (names & Hnames & Ha).
  pose proof (listed_not_event_handler _ _ _ Hnames Ha) as Hevent.
  destruct (existsb (String.eqb a) schemeCheckedAttributes) eqn:Hchecked; cbn [andb].
  - destruct (naughtyHref opts v) eqn:Hnaughty; [exact IH|].
    assert (Hns : a <> "srcset").
    { intros ->. discriminate Hchecked. }
    apply String.eqb_neq in Hns. rewrite Hns.
    constructor; [|exact IH]. repeat split; simpl.
    + exact Hevent.
    + intros _. apply not_naughty_allowed, Hnaughty.
    + apply String.eqb_neq in Hns. contradiction.
  - assert (Hnot : ~ In a ["href"; "src"; "cite"]).
    { intros Hin. apply existsb_eqb_In in Hin. unfold schemeCheckedAttributes in Hchecked.
      congruence. }
    destruct (String.eqb_spec a "srcset") as [->|Hns].
    + pose proof (keepCandidates_allowed v) as Hkept.
      destruct (keepCandidates parseSrcset opts v) as [|c kept] eqn:Ekept; [exact IH|].
      constructor; [|exact IH]. repeat split; simpl.
      * contradiction.
      * intros _. exists (c :: kept). repeat split; [discriminate | exact Hkept].
    + constructor; [|exact IH]. repeat split; simpl; [exact Hevent | contradiction..].
Qed.

Lemma allowed_not_banned (name : string) : In name ALLOWED_TAGS -> ~ In name bannedTags.
Proof.
  intros Hin Hbanned. simpl in Hbanned.
  destruct Hbanned as [<- | [<- | [<- | []]]]; simpl in Hin;
    repeat (destruct Hin as [Hin | Hin]; [discriminate Hin|]); exact Hin.
Qed.

Lemma readmeTransformTags_name (tagName : string) (attribs : Attribs) :
  fst (readmeTransformTags packageName hasProtocol tagName attribs) = tagName.
Proof.
  unfold readmeTransformTags.
  destruct (tagName =? "img"); [reflexivity|]. destruct (tagName =? "a"); reflexivity.
Qed.

Lemma sanitizeNode_safe (n : Node) :
  Forall (safeElement stringifySrcset) (elements (sanitizeN n)).
Proof.
  induction n as [data | tagName attribs children IH] using Node_forest_ind.
  - constructor.
  - simpl sanitizeNode.
    pose proof (readmeTransformTags_name tagName attribs) as Hname.
    destruct (readmeTransformTags packageName hasProtocol tagName attribs)
      as [name attribs'].
    simpl in Hname. subst name.
    assert (Hkids : Forall (safeElement stringifySrcset)
                      (elements (flat_map sanitizeN children))).
    { induction IH as [|c children Hc _ IHkids]; [constructor|].
      simpl. rewrite elements_app. apply Forall_app. split; assumption. }
    destruct (tagAllowed opts tagName) eqn:Hallowed.
    + unfold elements. simpl. rewrite app_nil_r. constructor; [|exact Hkids].
      apply tagAllowed_In in Hallowed.
      repeat split; simpl.
      * exact Hallowed.
      * apply allowed_not_banned, Hallowed.
      * apply filterAttribs_listed.
      * apply filterAttribs_safe.
    + match goal with
      | |- context [if ?dropped then [] else _] =>
          destruct dropped; [constructor | exact Hkids]
      end.
Qed.

(** C1. Whatever the parsed input, every element of the sanitizer's
    output has an allowed tag, so none is a script, style or iframe
    element; every attribute is listed for its tag and none is an event
    handler; and every surviving [href], [src] or [cite] value, and every
    URL of a surviving srcset, has no scheme or one of [http], [https]
    and [mailto]. A script element is dropped with its content; an image
    source with another scheme is rewritten to the CDN by
    [transformTags.img] before the scheme is checked. *)
Theorem sanitize_output_safe (rawHtml : list Node) :
  Forall (safeElement stringifySrcset) (elements (sanitizeF rawHtml)) /\
  sanitizeF [Element "script" [] [Text "alert(1)"]] = [] /\
  sanitizeF [Element "p" [("onclick", "alert(1)")]
               [Text "a"; Element "script" [] [Text "alert(1)"]; Text "b"]] =
    [Element "p" [] [Text "a"; Text "b"]] /\
  sanitizeF [Element "a" [("href", "javascript:alert(1)")] [Text "x"];
             Element "iframe" [("src", "https://example.com")] []] =
    [Element "a" (if hasProtocol "javascript:alert(1)"
                  then [("rel", relValue); ("target", targetValue)] else [])
       [Text "x"]] /\
  sanitize "foo" hasProtocol parseSrcset stringifySrcset
    [Element "img" [("src", "javascript:alert(1)"); ("onerror", "alert(1)")] []] =
    [Element "img" [("src", "https://cdn.jsdelivr.net/npm/foo/javascript:alert(1)")] []].
Proof.
  split; [|split; [reflexivity|split; [reflexivity|split; [|reflexivity]]]].
  - induction rawHtml as [|n rest IH]; [constructor|].
    rewrite sanitize_cons, elements_app. apply Forall_app. split; [|exact IH].
    apply sanitizeNode_safe.
  - unfold sanitize, sanitizeHtml. simpl. unfold transformA. simpl.
    destruct (hasProtocol "javascript:alert(1)"); reflexivity.
Qed.

(** *** A second pass *)

Lemma setAttr_same (attribs : Attribs) (k v : string) :
  getAttr attribs k = Some v -> setAttr attribs k v = attribs.
Proof.
  induction attribs as [|[k' v'] rest IH]; simpl; [discriminate|].
  destruct (k' =? k).
  - intros [= ->]. reflexivity.
  - intros H. rewrite IH by exact H. reflexivity.
Qed.

Lemma setAttr_names (attribs : Attribs) (k v : string) :
  getAttr attribs k <> None -> map fst (setAttr attribs k v) = map fst attribs.
Proof.
  induction attribs as [|[k' v'] rest IH]; simpl; [congruence|].
  destruct (k' =? k); simpl; [reflexivity|].
  intros H. rewrite IH by exact H. reflexivity.
Qed.

Lemma getAttr_None_notin (attribs : Attribs) (k : string) :
  getAttr attribs k = None <-> ~ In k (map fst attribs).
Proof.
  induction attribs as [|[k' v'] rest IH]; simpl; [tauto|].
  destruct (String.eqb_spec k' k) as [->|Hne].
  - split; [discriminate | tauto].
  - rewrite IH. tauto.
Qed.

Lemma setAttr_new_names (attribs : Attribs) (k v : string) :
  getAttr attribs k = None -> map fst (setAttr attribs k v) = (map fst attribs ++ [k])%list.
Proof.
  induction attribs as [|[k' v'] rest IH]; simpl; [reflexivity|].
  destruct (k' =? k); simpl; [discriminate|].
  intros H. rewrite IH by exact H. reflexivity.
Qed.

Lemma setAttr_unique (attribs : Attribs) (k v : string) :
  uniqueNames attribs -> uniqueNames (setAttr attribs k v).
Proof.
  unfold uniqueNames. intros Hu.
  destruct (getAttr attribs k) as [v0|] eqn:E.
  - rewrite setAttr_names by congruence. exact Hu.
  - rewrite setAttr_new_names by exact E.
    apply NoDup_app; [exact Hu | repeat constructor; simpl; tauto |].
    intros x Hx [<- | []]. apply getAttr_None_notin in E. contradiction.
Qed.

Lemma filterAttribs_names_incl (name : string) (attribs : Attribs) (k : string) :
  In k (map fst (filterA name attribs)) -> In k (map fst attribs).
Proof.
  induction attribs as [|[a v] rest IH]; [contradiction|].
  rewrite filterAttribs_cons. cbn [map fst].
  destruct (negb (attrAllowed opts name a)); [intros H; right; apply IH, H|].
  destruct (existsb (String.eqb a) schemeCheckedAttributes && naughtyHref opts v);
    [intros H; right; apply IH, H|].
  destruct (a =? "srcset").
  - destruct (keepCandidates parseSrcset opts v); [intros H; right; apply IH, H|].
    intros [H | H]; [left; exact H | right; apply IH, H].
  - intros [H | H]; [left; exact H | right; apply IH, H].
Qed.

(** What the filter leaves under a key, when names are unique: the value
    it had, unless the attribute was stripped. *)
Lemma getAttr_filterAttribs (name : string) (attribs : Attribs) (k : string) :
  uniqueNames attribs -> k <> "srcset" ->
  getAttr (filterA name attribs) k =
  match getAttr attribs k with
  | Some v =>
      if negb (attrAllowed opts name k) then None
      else if existsb (String.eqb k) schemeCheckedAttributes && naughtyHref opts v
      then None else Some v
  | None => None
  end.
Proof.
  intros Hu Hk. induction attribs as [|[a v] rest IH]; [reflexivity|].
  inversion Hu as [|? ? Hnotin Hu']; subst.
  rewrite filterAttribs_cons. cbn [getAttr].
  destruct (String.eqb_spec a k) as [->|Hne].
  - assert (Hgone : getAttr (filterA name rest) k = None).
    { apply getAttr_None_notin. intros Hin. apply Hnotin.
      apply filterAttribs_names_incl with name, Hin. }
    destruct (negb (attrAllowed opts name k)); [exact Hgone|].
    destruct (existsb (String.eqb k) schemeCheckedAttributes && naughtyHref opts v);
      [exact Hgone|].
    apply String.eqb_neq in Hk. rewrite Hk. simpl. rewrite String.eqb_refl. reflexivity.
  - specialize (IH Hu').
    assert (Hskip : forall v', getAttr ((a, v') :: filterA name rest) k
                               = getAttr (filterA name rest) k).
    { intros v'. simpl. apply String.eqb_neq in Hne. rewrite Hne. reflexivity. }
    destruct (negb (attrAllowed opts name a)); [exact IH|].
    destruct (existsb (String.eqb a) schemeCheckedAttributes && naughtyHref opts v);
      [exact IH|].
    destruct (a =? "srcset").
    + destruct (keepCandidates parseSrcset opts v); [exact IH|].
      rewrite Hskip. exact IH.
    + rewrite Hskip. exact IH.
Qed.

Lemma filter_twice {A : Type} (f : A -> bool) (l : list A) :
  filter f (filter f l) = filter f l.
Proof.
  induction l as [|x l IH]; simpl; [reflexivity|].
  destruct (f x) eqn:E; simpl; [rewrite E, IH; reflexivity | exact IH].
Qed.

Hypothesis srcset_round_trip : srcsetRoundTrip opts parseSrcset stringifySrcset.

Lemma keepCandidates_printed (value : string) :
  keepCandidates parseSrcset opts value <> [] ->
  keepCandidates parseSrcset opts
    (stringifySrcset (keepCandidates parseSrcset opts value)) =
  keepCandidates parseSrcset opts value.
Proof.
  intros Hne. unfold keepCandidates at 1.
  rewrite (srcset_round_trip value Hne). apply filter_twice.
Qed.

Lemma filterAttribs_idempotent (name : string) (attribs : Attribs) :
  filterA name (filterA name attribs) = filterA name attribs.
Proof.
  induction attribs as [|[a v] rest IH]; [reflexivity|].
  rewrite filterAttribs_cons.
  destruct (attrAllowed opts name a) eqn:Hallowed; cbn [negb]; [|exact IH].
  destruct (existsb (String.eqb a) schemeCheckedAttributes && naughtyHref opts v)
    eqn:Hcheck; [exact IH|].
  destruct (String.eqb_spec a "srcset") as [->|Hns].
  - destruct (keepCandidates parseSrcset opts v) as [|c kept] eqn:Ekept; [exact IH|].
    rewrite filterAttribs_cons, Hallowed. cbn [negb].
    change (existsb (String.eqb "srcset") schemeCheckedAttributes) with false.
    cbn [andb]. rewrite String.eqb_refl.
    rewrite <- Ekept, keepCandidates_printed by (rewrite Ekept; discriminate).
    rewrite Ekept, IH. reflexivity.
  - rewrite filterAttribs_cons, Hallowed, Hcheck. cbn [negb].
    apply String.eqb_neq in Hns. rewrite Hns, IH. reflexivity.
Qed.

Lemma filterAttribs_unique (name : string) (attribs : Attribs) :
  uniqueNames attribs -> uniqueNames (filterA name attribs).
Proof.
  unfold uniqueNames. induction attribs as [|[a v] rest IH]; [intros _; constructor|].
  intros Hu. inversion Hu as [|? ? Hnotin Hu']; subst. specialize (IH Hu').
  assert (Hfresh : ~ In a (map fst (filterA name rest))).
  { intros Hin. apply Hnotin. apply filterAttribs_names_incl with name, Hin. }
  rewrite filterAttribs_cons.
  destruct (negb (attrAllowed opts name a)); [exact IH|].
  destruct (existsb (String.eqb a) schemeCheckedAttributes && naughtyHref opts v);
    [exact IH|].
  destruct (a =? "srcset").
  - destruct (keepCandidates parseSrcset opts v); [exact IH|].
    cbn [map fst]. constructor; assumption.
  - cbn [map fst]. constructor; assumption.
Qed.

(** [transformTags.a] changes nothing on a filtered element. *)
Lemma transformA_filtered (attribs : Attribs) :
  uniqueNames attribs ->
  transformA hasProtocol (filterA "a" (transformA hasProtocol attribs)) =
  filterA "a" (transformA hasProtocol attribs).
Proof.
  intros Hu.
  assert (Hkeep : forall l k, uniqueNames l -> In k ["rel"; "target"] ->
                              getAttr (filterA "a" l) k = getAttr l k).
  { intros l k Hl Hk. rewrite getAttr_filterAttribs; [|exact Hl|].
    - destruct Hk as [<- | [<- | []]]; destruct (getAttr l _); reflexivity.
    - destruct Hk as [<- | [<- | []]]; discriminate. }
  assert (Hhref : forall l, uniqueNames l ->
                            getAttr (filterA "a" l) "href" = None \/
                            getAttr (filterA "a" l) "href" = getAttr l "href").
  { intros l Hl. rewrite getAttr_filterAttribs by (exact Hl || discriminate).
    destruct (getAttr l "href") as [h|]; [|left; reflexivity].
    change (negb (attrAllowed opts "a" "href")) with false. cbn iota.
    destruct (_ && _); [left | right]; reflexivity. }
  unfold transformA at 2 3.
  destruct (getAttr attribs "href") as [h|] eqn:Eh.
  - destruct (nonEmpty h && hasProtocol h) eqn:Econd.
    + set (b := setAttr (setAttr attribs "rel" relValue) "target" targetValue).
      assert (Hb : uniqueNames b) by (apply setAttr_unique, setAttr_unique, Hu).
      assert (Hrel : getAttr (filterA "a" b) "rel" = Some relValue).
      { rewrite Hkeep by (exact Hb || (simpl; tauto)). unfold b.
        rewrite getAttr_setAttr_other by discriminate. apply getAttr_setAttr_same. }
      assert (Htarget : getAttr (filterA "a" b) "target" = Some targetValue).
      { rewrite Hkeep by (exact Hb || (simpl; tauto)). unfold b.
        apply getAttr_setAttr_same. }
      assert (Hbh : getAttr b "href" = Some h).
      { unfold b. rewrite !getAttr_setAttr_other by discriminate. exact Eh. }
      unfold transformA.
      destruct (Hhref b Hb) as [-> | ->]; [reflexivity|].
      rewrite Hbh, Econd.
      rewrite (setAttr_same _ "rel" relValue Hrel). apply setAttr_same, Htarget.
    + unfold transformA.
      destruct (Hhref attribs Hu) as [-> | ->]; [reflexivity|].
      rewrite Eh, Econd. reflexivity.
  - unfold transformA.
    destruct (Hhref attribs Hu) as [-> | ->]; [reflexivity|].
    rewrite Eh. reflexivity.
Qed.

(** [transformTags.img] changes nothing on a filtered element whose
    source is no longer a blob URL. *)
Lemma transformImg_filtered (attribs : Attribs) :
  uniqueNames attribs ->
  (forall src, getAttr (filterA "img" (transformImg packageName attribs)) "src" = Some src ->
               includes src "github.com" && includes src "/blob/" = false) ->
  transformImg packageName (filterA "img" (transformImg packageName attribs)) =
  filterA "img" (transformImg packageName attribs).
Proof.
  intros Hu Hfree.
  assert (Hsrc : forall l, uniqueNames l ->
                           getAttr (filterA "img" l) "src" = None \/
                           getAttr (filterA "img" l) "src" = getAttr l "src").
  { intros l Hl. rewrite getAttr_filterAttribs by (exact Hl || discriminate).
    destruct (getAttr l "src") as [h|]; [|left; reflexivity].
    change (negb (attrAllowed opts "img" "src")) with false. cbn iota.
    destruct (_ && _); [left | right]; reflexivity. }
  revert Hfree. unfold transformImg at 1 3 4.
  destruct (getAttr attribs "src") as [src|] eqn:Esrc.
  - destruct (nonEmpty src) eqn:Enonempty.
    + set (b := setAttr attribs "src" (resolveImageUrl src packageName)).
      assert (Hb : uniqueNames b) by (apply setAttr_unique, Hu).
      assert (Hbsrc : getAttr b "src" = Some (resolveImageUrl src packageName))
        by apply getAttr_setAttr_same.
      intros Hfree. unfold transformImg.
      destruct (Hsrc b Hb) as [Hnone | Hsame]; [rewrite Hnone; reflexivity|].
      rewrite Hbsrc in Hsame. rewrite Hsame.
      destruct (nonEmpty (resolveImageUrl src packageName)); [|reflexivity].
      rewrite resolveImageUrl_fixed by (apply Hfree, Hsame).
      apply setAttr_same, Hsame.
    + intros _. unfold transformImg.
      destruct (Hsrc attribs Hu) as [-> | ->]; [reflexivity|].
      rewrite Esrc, Enonempty. reflexivity.
  - intros _. unfold transformImg.
    destruct (Hsrc attribs Hu) as [-> | ->]; [reflexivity|].
    rewrite Esrc. reflexivity.
Qed.

Lemma sanitizeNode_element (tagName : string) (attribs : Attribs) (children : list Node) :
  sanitizeN (Element tagName attribs children) =
  if tagAllowed opts tagName then
    [Element tagName
       (filterA tagName (snd (readmeTransformTags packageName hasProtocol tagName attribs)))
       (flat_map sanitizeN children)]
  else if existsb (String.eqb tagName) nonTextTags then []
  else flat_map sanitizeN children.
Proof.
  cbn [sanitizeNode]. cbn [transformTags readmeOptions].
  pose proof (readmeTransformTags_name tagName attribs) as Hname.
  destruct (readmeTransformTags packageName hasProtocol tagName attribs) as [name attribs'].
  simpl in Hname. subst name. reflexivity.
Qed.

Lemma blobFree_app (l1 l2 : list Node) :
  blobFree (l1 ++ l2) <-> blobFree l1 /\ blobFree l2.
Proof. unfold blobFree. rewrite elements_app. apply Forall_app. Qed.

(** The transform of a tag changes nothing on what a first pass left. *)
Lemma transform_filtered (tagName : string) (attribs : Attribs) :
  uniqueNames attribs ->
  (tagName = "img" ->
   forall src,
     getAttr (filterA tagName
                (snd (readmeTransformTags packageName hasProtocol tagName attribs)))
             "src" = Some src ->
     includes src "github.com" && includes src "/blob/" = false) ->
  snd (readmeTransformTags packageName hasProtocol tagName
         (filterA tagName
            (snd (readmeTransformTags packageName hasProtocol tagName attribs)))) =
  filterA tagName (snd (readmeTransformTags packageName hasProtocol tagName attribs)).
Proof.
  intros Hu Hfree. unfold readmeTransformTags.
  destruct (String.eqb_spec tagName "img") as [->|Himg].
  - cbn [snd]. apply transformImg_filtered; [exact Hu|].
    intros src Hsrc. apply (Hfree eq_refl). exact Hsrc.
  - destruct (String.eqb_spec tagName "a") as [->|Ha]; [|reflexivity].
    cbn [snd]. apply transformA_filtered, Hu.
Qed.

Lemma sanitizeNode_idempotent (n : Node) :
  wellFormed n -> blobFree (sanitizeN n) -> sanitizeF (sanitizeN n) = sanitizeN n.
Proof.
  induction n as [data | tagName attribs children IH] using Node_forest_ind;
    intros Hwf Hfree; [reflexivity|].
  inversion Hwf as [|? ? ? Hu Hkidswf]; subst.
  assert (Hkids : blobFree (flat_map sanitizeN children) ->
                  sanitizeF (flat_map sanitizeN children) = flat_map sanitizeN children).
  { clear Hfree Hwf. induction IH as [|c children Hc _ IHkids]; [reflexivity|].
    inversion Hkidswf; subst. cbn [flat_map]. intros Hfree.
    apply blobFree_app in Hfree. destruct Hfree as [Hfc Hfrest].
    rewrite sanitize_app, Hc, IHkids by assumption. reflexivity. }
  rewrite sanitizeNode_element in *.
  destruct (tagAllowed opts tagName) eqn:Hallowed.
  - unfold blobFree, elements in Hfree. cbn [flat_map elementsOf] in Hfree.
    rewrite app_nil_r in Hfree. inversion Hfree as [|? ? Hhead Hrest]; subst.
    rewrite sanitize_cons, sanitizeNode_element, Hallowed.
    rewrite transform_filtered; [|exact Hu|].
    + rewrite filterAttribs_idempotent.
      change (flat_map sanitizeN (flat_map sanitizeN children))
        with (sanitizeF (flat_map sanitizeN children)).
      rewrite Hkids by exact Hrest. reflexivity.
    + intros Himg src Hsrc. apply (Hhead Himg src Hsrc).
  - destruct (existsb (String.eqb tagName) nonTextTags); [reflexivity|].
    apply Hkids, Hfree.
Qed.

(** Apart from that rewrite a second pass changes nothing: sanitizing is
    idempotent on every well-formed document whose sanitized image sources
    do not contain both [github.com] and [/blob/] any more, given that a
    printed srcset reads back as it was printed. *)
Theorem sanitize_idempotent (rawHtml : list Node) :
  Forall wellFormed rawHtml ->
  blobFree (sanitizeF rawHtml) ->
  sanitizeF (sanitizeF rawHtml) = sanitizeF rawHtml.
Proof.
  induction rawHtml as [|n rest IH]; intros Hwf Hfree; [reflexivity|].
  inversion Hwf; subst. rewrite sanitize_cons in *.
  apply blobFree_app in Hfree. destruct Hfree as [Hn Hrest].
  rewrite sanitize_app, sanitizeNode_idempotent, IH by assumption. reflexivity.
Qed.

End Sanitizer.

Section SanitizerExamples.
Import Js Readme.

Lemma parseOne_round_trip (o : SanitizeOptions) : srcsetRoundTrip o parseOne printOne.
Proof.
  intros value. unfold keepCandidates, parseOne.
  destruct (nonEmpty value) eqn:E; simpl; [|congruence].
  destruct (negb (naughtyHref o value)); simpl; [|congruence].
  intros _. rewrite E. reflexivity.
Qed.

(** C9. The sanitizer at an image whose GitHub source goes through two
    [/blob/] segments: the first pass rewrites the first segment, which
    gives the raw URL of the file; a second pass rewrites the other one
    too, so the second pass changes its input and the result no longer
    names the file. *)
Lemma sanitize_twice_rewrites_blob_again :
  sanitize "pkg" schemeOrRelative parseOne printOne blobTwice =
    [Element "img" [("src", "https://github.com/o/r/raw/main/blob/logo.png")] []] /\
  sanitize "pkg" schemeOrRelative parseOne printOne
    (sanitize "pkg" schemeOrRelative parseOne printOne blobTwice) =
    [Element "img" [("src", "https://github.com/o/r/raw/main/raw/logo.png")] []] /\
  sanitize "pkg" schemeOrRelative parseOne printOne
    (sanitize "pkg" schemeOrRelative parseOne printOne blobTwice) <>
  sanitize "pkg" schemeOrRelative parseOne printOne blobTwice.
Proof. split; [reflexivity|]. split; [reflexivity|]. discriminate. Qed.

(** The same rewrite happens twice within one rendering of a Markdown
    image: [renderer.image] resolves the source, and [transformTags.img]
    resolves the result again. *)
Lemma markdown_image_resolved_twice :
  image "pkg" "https://github.com/o/r/blob/main/blob/logo.png" None "logo" =
    "<img src=" ++ dq ++ "https://github.com/o/r/raw/main/blob/logo.png" ++ dq
      ++ " alt=" ++ dq ++ "logo" ++ dq ++ ">" /\
  transformImg "pkg"
    [("src", "https://github.com/o/r/raw/main/blob/logo.png"); ("alt", "logo")] =
    [("src", "https://github.com/o/r/raw/main/raw/logo.png"); ("alt", "logo")].
Proof. split; reflexivity. Qed.

Lemma sampleReadme_wellFormed : Forall wellFormed sampleReadme.
Proof.
  unfold sampleReadme, uniqueNames.
  repeat (constructor; unfold uniqueNames; simpl;
          try (intros H; repeat (destruct H as [H | H]; [discriminate H|]); exact H)).
Qed.

Lemma sampleReadme_sanitized :
  sanitize "foo" schemeOrRelative parseOne printOne sampleReadme =
  [Element "div" [("class", "intro")]
     [Element "img" [("src", "https://cdn.jsdelivr.net/npm/foo/logo.png"); ("alt", "logo")] [];
      Element "a" [("href", "https://example.com"); ("title", "site");
                   ("rel", "nofollow noreferrer noopener"); ("target", "_blank")]
        [Text "site"];
      Element "picture" []
        [Element "source" [("srcset", "https://example.com/a.png")] []];
      Text "kept text"]].
Proof. reflexivity. Qed.

Lemma sampleReadme_blobFree :
  blobFree (sanitize "foo" schemeOrRelative parseOne printOne sampleReadme).
Proof.
  rewrite sampleReadme_sanitized. unfold blobFree, elements. simpl.
  repeat constructor; simpl; intros Himg src Hsrc;
    try discriminate Himg; injection Hsrc as <-; reflexivity.
Qed.

Lemma sanitize_idempotent_witness :
  Forall wellFormed sampleReadme /\
  blobFree (sanitize "foo" schemeOrRelative parseOne printOne sampleReadme) /\
  sanitize "foo" schemeOrRelative parseOne printOne
    (sanitize "foo" schemeOrRelative parseOne printOne sampleReadme) =
  sanitize "foo" schemeOrRelative parseOne printOne sampleReadme.
Proof.
  split; [exact sampleReadme_wellFormed|]. split; [exact sampleReadme_blobFree|].
  exact (sanitize_idempotent "foo" schemeOrRelative parseOne printOne
           (parseOne_round_trip _) sampleReadme
           sampleReadme_wellFormed sampleReadme_blobFree).
Defined.

End SanitizerExamples.

(** * Further properties of the code *)

(** ** Resolved URLs *)

Section ResolvedUrls.
Import Js Readme.

Lemma resolveUrl_empty_iff (url p : string) : resolveUrl url p = "" <-> url = "".
Proof.
  split; [|intros ->; reflexivity].
  intros H. destruct (String.eqb_spec url "") as [E|Hne]; [exact E|].
  destruct (startsAbsoluteOrFragment url) eqn:Habs.
  - rewrite resolveUrl_passes in H by assumption. exact H.
  - rewrite resolveUrl_relative in H by assumption. discriminate H.
Qed.

(** X1. Whatever the URL and the package, [resolveUrl] and
    [resolveImageUrl] never return a relative URL: the result is empty, and
    then the URL was empty, or it starts with [#], [http://], [https://] or
    [//]. *)
Theorem resolved_url_never_relative (url p : string) :
  (resolveUrl url p = "" \/ startsAbsoluteOrFragment (resolveUrl url p) = true) /\
  (resolveImageUrl url p = "" \/ startsAbsoluteOrFragment (resolveImageUrl url p) = true) /\
  (resolveUrl url p = "" <-> url = "") /\
  (resolveImageUrl url p = "" <-> url = "").
Proof.
  split; [apply resolveUrl_shape|].
  split; [apply (blobToRaw_shape _ (resolveUrl_shape url p))|].
  split; [apply resolveUrl_empty_iff|].
  split; [|intros ->; reflexivity].
  intros H. apply (resolveUrl_empty_iff url p).
  destruct (resolveUrl_shape url p) as [E|Habs]; [exact E|].
  change (resolveImageUrl url p) with (blobToRaw (resolveUrl url p)) in H.
  unfold blobToRaw in H.
  destruct (includes (resolveUrl url p) "github.com" && includes (resolveUrl url p) "/blob/");
    [|exact H].
  apply replace_blob_keeps_prefix in Habs. rewrite H in Habs. discriminate Habs.
Qed.

(** X2. Resolving a resolved URL changes nothing, whatever package the
    second resolution is for: a URL is rewritten to the CDN at most
    once. *)
Theorem resolveUrl_twice (url p q : string) :
  resolveUrl (resolveUrl url p) q = resolveUrl url p.
Proof.
  destruct (resolveUrl_shape url p) as [H|H].
  - rewrite H. reflexivity.
  - apply resolveUrl_passes, H.
Qed.

(** X3. Resolving an image source a second time changes nothing when the
    source resolved once does not contain both [github.com] and
    [/blob/]. *)
Theorem resolveImageUrl_twice (url p : string) :
  includes (resolveImageUrl url p) "github.com"
    && includes (resolveImageUrl url p) "/blob/" = false ->
  resolveImageUrl (resolveImageUrl url p) p = resolveImageUrl url p.
Proof. apply resolveImageUrl_fixed. Qed.

Lemma resolveImageUrl_twice_witness :
  includes (resolveImageUrl "https://github.com/o/r/blob/main/logo.png" "foo") "github.com"
    && includes (resolveImageUrl "https://github.com/o/r/blob/main/logo.png" "foo") "/blob/"
    = false /\
  resolveImageUrl (resolveImageUrl "https://github.com/o/r/blob/main/logo.png" "foo") "foo" =
  resolveImageUrl "https://github.com/o/r/blob/main/logo.png" "foo".
Proof.
  split; [reflexivity|].
  apply (resolveImageUrl_twice "https://github.com/o/r/blob/main/logo.png" "foo").
  reflexivity.
Defined.

End ResolvedUrls.

(** ** The plain code block *)

Section PlainCode.
Import Js JsText ReadmeRenderer.

(** What the three replacements make of one character. *)
Lemma escapeCode_cons (c : ascii) (text : string) :
  escapeCode (String c text) =
  (if Ascii.eqb c "&" then "&amp;"
   else if Ascii.eqb c "<" then "&lt;"
   else if Ascii.eqb c ">" then "&gt;"
   else String c EmptyString) ++ escapeCode text.
Proof.
  unfold escapeCode. cbn [replaceAllChar].
  destruct (Ascii.eqb_spec c "&") as [->|Hamp]; [reflexivity|].
  cbn [replaceAllChar].
  destruct (Ascii.eqb_spec c "<") as [->|Hlt]; [reflexivity|].
  cbn [replaceAllChar].
  destruct (Ascii.eqb_spec c ">") as [->|Hgt]; reflexivity.
Qed.

Lemma includes_char_cons (x c : ascii) (s : string) :
  includes (String x s) (String c EmptyString) =
  Ascii.eqb c x || includes s (String c EmptyString).
Proof. rewrite includes_unfold, prefix_cons_eq, prefix_empty, andb_true_r. reflexivity. Qed.

Lemma includes_char_empty (c : ascii) : includes EmptyString (String c EmptyString) = false.
Proof. reflexivity. Qed.

(** X4. The text of a plain code block holds no angle bracket, whatever
    the code: no markup written in a code block reaches the page as
    markup. *)
Theorem escapeCode_no_angle_bracket (text : string) :
  includes (escapeCode text) "<" = false /\
  includes (escapeCode text) ">" = false.
Proof.
  induction text as [|c text [IHlt IHgt]]; [split; reflexivity|].
  rewrite escapeCode_cons.
  destruct (Ascii.eqb_spec c "&") as [->|Hamp];
    [|destruct (Ascii.eqb_spec c "<") as [->|Hlt];
      [|destruct (Ascii.eqb_spec c ">") as [->|Hgt]]];
    cbn [String.append]; rewrite !includes_char_cons, IHlt, IHgt;
    try (split; reflexivity).
  split.
  - apply Ascii.eqb_neq in Hlt. rewrite Ascii.eqb_sym, Hlt. reflexivity.
  - apply Ascii.eqb_neq in Hgt. rewrite Ascii.eqb_sym, Hgt. reflexivity.
Qed.

(** X5. Escaping loses nothing: the entities read back give the code as
    it was, so two different code texts never have the same escaped
    form. *)
Theorem escapeCode_round_trip (text : string) :
  unescapeCode (escapeCode text) = text /\
  (forall other, escapeCode other = escapeCode text -> other = text).
Proof.
  assert (Hback : forall t, unescapeCode (escapeCode t) = t).
  { induction t as [|c t IH]; [reflexivity|].
    rewrite escapeCode_cons.
    destruct (Ascii.eqb_spec c "&") as [->|Hamp];
      [cbn; rewrite IH; reflexivity|].
    destruct (Ascii.eqb_spec c "<") as [->|Hlt];
      [cbn; rewrite IH; reflexivity|].
    destruct (Ascii.eqb_spec c ">") as [->|Hgt];
      [cbn; rewrite IH; reflexivity|].
    cbn [String.append]. cbn [unescapeCode]. rewrite IH.
    destruct c as [[] [] [] [] [] [] [] []]; try reflexivity; congruence. }
  split; [apply Hback|].
  intros other H. rewrite <- (Hback other), H. apply Hback.
Qed.

End PlainCode.

(** ** Callouts *)

Section Callouts.
Import Js JsText Readme ReadmeRenderer.

Lemma length_append (a b : string) :
  String.length (a ++ b) = String.length a + String.length b.
Proof. induction a as [|c a IH]; simpl; [reflexivity | rewrite IH; reflexivity]. Qed.

Lemma take_app (a b : string) : take (String.length a) (a ++ b) = a.
Proof. induction a as [|c a IH]; simpl; [destruct b; reflexivity | rewrite IH; reflexivity]. Qed.

Lemma lowerCase_app (a b : string) : lowerCase (a ++ b) = lowerCase a ++ lowerCase b.
Proof. induction a as [|c a IH]; simpl; [reflexivity | rewrite IH; reflexivity]. Qed.

(** What follows a match is the end of the text matched against, and what
    was matched is the pattern up to letter case. *)
Lemma matchLiteralCI_suffix (pat s rest : string) :
  matchLiteralCI pat s = Some rest ->
  exists m, s = m ++ rest /\ lowerCase m = lowerCase pat.
Proof.
  revert s. induction pat as [|p pat IH]; intros s; simpl.
  - intros [= ->]. exists EmptyString. split; reflexivity.
  - destruct s as [|c s]; [discriminate|].
    destruct (Ascii.eqb (toLower c) (toLower p)) eqn:Ec; [|discriminate].
    intros H. destruct (IH s H) as (m & -> & Hm). exists (String c m).
    apply Ascii.eqb_eq in Ec. simpl. rewrite Ec, Hm. split; reflexivity.
Qed.

Lemma skipWhitespace_suffix_bounded (n : nat) (s : string) :
  String.length s <= n ->
  (exists m, s = m ++ skipWhitespace s) /\
  skipWhitespace (skipWhitespace s) = skipWhitespace s.
Proof.
  revert s. induction n as [|n IH]; intros s Hlen.
  - destruct s; [split; [exists EmptyString|]; reflexivity | simpl in Hlen; lia].
  - destruct s as [|c1 s1]; [split; [exists EmptyString|]; reflexivity|].
    simpl in Hlen. cbn [skipWhitespace].
    destruct (asciiSpace (nat_of_ascii c1)) eqn:E1.
    { destruct (IH s1 ltac:(lia)) as [[m Hm] Hidem]. split; [|exact Hidem].
      exists (String c1 m). simpl. rewrite <- Hm. reflexivity. }
    destruct s1 as [|c2 s2].
    { split; [exists EmptyString; reflexivity|].
      cbn [skipWhitespace]. rewrite E1. reflexivity. }
    simpl in Hlen.
    destruct ((nat_of_ascii c1 =? 194)%nat && (nat_of_ascii c2 =? 160)%nat) eqn:E2.
    { destruct (IH s2 ltac:(lia)) as [[m Hm] Hidem]. split; [|exact Hidem].
      exists (String c1 (String c2 m)). simpl. rewrite <- Hm. reflexivity. }
    destruct s2 as [|c3 s3].
    { split; [exists EmptyString; reflexivity|].
      cbn [skipWhitespace]. rewrite E1, E2. reflexivity. }
    simpl in Hlen.
    destruct (threeByteSpace (nat_of_ascii c1) (nat_of_ascii c2) (nat_of_ascii c3)) eqn:E3.
    { destruct (IH s3 ltac:(lia)) as [[m Hm] Hidem]. split; [|exact Hidem].
      exists (String c1 (String c2 (String c3 m))). simpl. rewrite <- Hm. reflexivity. }
    split; [exists EmptyString; reflexivity|].
    cbn [skipWhitespace]. rewrite E1, E2, E3. reflexivity.
Qed.

Lemma skipWhitespace_suffix (s : string) : exists m, s = m ++ skipWhitespace s.
Proof. apply (skipWhitespace_suffix_bounded (String.length s)). lia. Qed.

Lemma skipWhitespace_twice (s : string) :
  skipWhitespace (skipWhitespace s) = skipWhitespace s.
Proof. apply (skipWhitespace_suffix_bounded (String.length s)). lia. Qed.

Lemma calloutNames_lowerCase (n : string) : In n calloutNames -> lowerCase n = n.
Proof.
  intros H. simpl in H.
  destruct H as [<- | [<- | [<- | [<- | [<- | []]]]]]; reflexivity.
Qed.

Lemma matchCalloutName_spec (names : list string) (s n rest : string) :
  matchCalloutName names s = Some (n, rest) ->
  In n names /\ exists m, s = m ++ rest /\ lowerCase m = lowerCase (n ++ "]").
Proof.
  induction names as [|n0 names IH]; simpl; [discriminate|].
  destruct (matchLiteralCI (n0 ++ "]") s) as [after|] eqn:E.
  - intros [= <- <-]. split; [left; reflexivity|].
    apply matchLiteralCI_suffix, E.
  - intros H. destruct (IH H) as [Hin Hm]. split; [right; exact Hin | exact Hm].
Qed.

Lemma matchCallout_spec (body t matched rest : string) :
  matchCallout body = Some (t, matched, rest) ->
  In t calloutNames /\ body = matched ++ rest /\
  startsWith (lowerCase matched) ("<p>[!" ++ t ++ "]") = true /\
  skipWhitespace rest = rest.
Proof.
  unfold matchCallout.
  destruct (matchLiteralCI "<p>[!" body) as [s1|] eqn:E1; [|discriminate].
  destruct (matchCalloutName calloutNames s1) as [[t0 s2]|] eqn:E2; [|discriminate].
  assert (Hs3 : exists m3 s3, s2 = m3 ++ s3 /\
                              s3 = match matchLiteralCI "<br>" s2 with
                                   | Some after => after
                                   | None => s2
                                   end).
  { destruct (matchLiteralCI "<br>" s2) as [after|] eqn:E3.
    - destruct (matchLiteralCI_suffix _ _ _ E3) as (m3 & Hm3 & _).
      exists m3, after. split; [exact Hm3 | reflexivity].
    - exists EmptyString, s2. split; reflexivity. }
  destruct Hs3 as (m3 & s3 & Hs2 & Hs3). rewrite <- Hs3. clear Hs3.
  cbv zeta. intros H. injection H as Ht Hmatched Hrest. subst t0.
  apply matchCalloutName_spec in E2. destruct E2 as (Hin & m2 & Hs1 & Hm2).
  apply matchLiteralCI_suffix in E1. destruct E1 as (m1 & Hbody & Hm1).
  destruct (skipWhitespace_suffix s3) as [m4 Hm4].
  rewrite Hrest in Hm4.
  assert (Hall : body = (m1 ++ m2 ++ m3 ++ m4) ++ rest).
  { rewrite Hbody, Hs1, Hs2, Hm4. rewrite !append_assoc. reflexivity. }
  assert (Hmatch : matched = m1 ++ m2 ++ m3 ++ m4).
  { rewrite <- Hmatched, Hrest.
    rewrite Hall, length_append, Nat.add_sub, take_app. reflexivity. }
  split; [exact Hin|]. split; [rewrite Hmatch; exact Hall|]. split.
  - rewrite Hmatch, !lowerCase_app, Hm1, Hm2, lowerCase_app.
    rewrite (calloutNames_lowerCase _ Hin).
    change (lowerCase "<p>[!") with "<p>[!". change (lowerCase "]") with "]".
    rewrite !append_assoc.
    replace ("<p>[!" ++ t ++ "]" ++ lowerCase m3 ++ lowerCase m4)
      with (("<p>[!" ++ t ++ "]") ++ lowerCase m3 ++ lowerCase m4)
      by (rewrite !append_assoc; reflexivity).
    unfold startsWith. apply prefix_app.
  - rewrite <- Hrest. apply skipWhitespace_twice.
Qed.

Lemma blockquote_of_match (body t matched rest : string) :
  matchCallout body = Some (t, matched, rest) ->
  blockquote body =
    "<blockquote data-callout=" ++ dq ++ t ++ dq ++ "><p>" ++ rest ++ "</blockquote>" ++ nl.
Proof.
  intros H. unfold blockquote. rewrite H.
  apply matchCallout_spec in H. destruct H as (_ & -> & _).
  replace (matched ++ rest) with (EmptyString ++ matched ++ rest) at 1 by reflexivity.
  rewrite replace_unfold. cbn [String.append]. rewrite prefix_app, drop_app.
  reflexivity.
Qed.

(** X6. A blockquote is rendered either as it is, or as a callout whose
    [data-callout] is one of [note], [tip], [important], [warning] and
    [caution] in lower case. The content of a callout is [<p>] followed by
    an end of the parsed body that starts with no white space; what was
    taken away in front of it starts, up to letter case, with the paragraph
    tag and the marker of that callout. *)
Theorem blockquote_cases (body : string) :
  (matchCallout body = None /\
   blockquote body = "<blockquote>" ++ body ++ "</blockquote>" ++ nl) \/
  (exists t marker rest,
      In t calloutNames /\ body = marker ++ rest /\
      startsWith (lowerCase marker) ("<p>[!" ++ t ++ "]") = true /\
      skipWhitespace rest = rest /\
      blockquote body =
        "<blockquote data-callout=" ++ dq ++ t ++ dq ++ "><p>" ++ rest
          ++ "</blockquote>" ++ nl).
Proof.
  destruct (matchCallout body) as [[[t matched] rest]|] eqn:E.
  - right. exists t, matched, rest.
    destruct (matchCallout_spec _ _ _ _ E) as (Hin & Hbody & Hstart & Hrest).
    repeat (split; [assumption|]).
    apply blockquote_of_match with matched, E.
  - left. split; [reflexivity|]. unfold blockquote. rewrite E. reflexivity.
Qed.

Lemma matchLiteralCI_same_letters (pat m rest : string) :
  lowerCase m = lowerCase pat -> matchLiteralCI pat (m ++ rest) = Some rest.
Proof.
  revert m. induction pat as [|p pat IH]; intros [|c m]; simpl; try discriminate.
  - intros _. reflexivity.
  - intros [= Hc Hm]. rewrite Hc, Ascii.eqb_refl. apply IH, Hm.
Qed.

Lemma matchLiteralCI_name (n marker rest : string) :
  In n calloutNames -> In (lowerCase marker) calloutNames ->
  matchLiteralCI (n ++ "]") (marker ++ "]" ++ rest) =
  if n =? lowerCase marker then Some rest else None.
Proof.
  intros Hn Hm. destruct (String.eqb_spec n (lowerCase marker)) as [E | E].
  - rewrite <- append_assoc. apply matchLiteralCI_same_letters.
    rewrite !lowerCase_app, <- E, (calloutNames_lowerCase _ Hn). reflexivity.
  - destruct marker as [|c marker]; [simpl in Hm; intuition discriminate|].
    cbn [lowerCase] in Hm, E. simpl in Hn, Hm.
    destruct Hn as [<- | [<- | [<- | [<- | [<- | []]]]]];
      destruct Hm as [Hm | [Hm | [Hm | [Hm | [Hm | []]]]]];
      try (exfalso; apply E; exact Hm);
      injection Hm as Hc _; simpl; rewrite <- Hc; reflexivity.
Qed.

Lemma matchCalloutName_marker (marker rest : string) :
  In (lowerCase marker) calloutNames ->
  matchCalloutName calloutNames (marker ++ "]" ++ rest) = Some (lowerCase marker, rest).
Proof.
  intros Hin. unfold calloutNames at 1. cbn [matchCalloutName].
  rewrite !(fun n H => matchLiteralCI_name n marker rest H Hin)
    by (simpl; tauto).
  simpl in Hin.
  destruct Hin as [<- | [<- | [<- | [<- | [<- | []]]]]]; reflexivity.
Qed.

(** X7. A body that starts with the paragraph tag and one of the five
    markers, in whatever letter case the marker is written, is rendered as
    that callout: [data-callout] is the marker in lower case, and the
    marker, a line break element after it and the white space that follows
    are taken out of the content. *)
Theorem blockquote_marker_any_case (marker rest : string) :
  In (lowerCase marker) calloutNames ->
  blockquote ("<p>[!" ++ marker ++ "]" ++ rest) =
    "<blockquote data-callout=" ++ dq ++ lowerCase marker ++ dq ++ "><p>"
      ++ afterMarker rest ++ "</blockquote>" ++ nl.
Proof.
  intros Hin.
  apply blockquote_of_match
    with (take (String.length ("<p>[!" ++ marker ++ "]" ++ rest)
                - String.length (afterMarker rest))
               ("<p>[!" ++ marker ++ "]" ++ rest)).
  unfold matchCallout.
  rewrite (matchLiteralCI_same_letters "<p>[!" "<p>[!" _ eq_refl).
  rewrite (matchCalloutName_marker _ _ Hin). reflexivity.
Qed.

Lemma blockquote_marker_any_case_witness :
  In (lowerCase "WaRnInG") calloutNames /\
  blockquote ("<p>[!WaRnInG]<br>" ++ nl ++ "Careful</p>" ++ nl) =
    "<blockquote data-callout=" ++ dq ++ "warning" ++ dq ++ "><p>Careful</p>" ++ nl
      ++ "</blockquote>" ++ nl.
Proof.
  split; [simpl; tauto|].
  apply (blockquote_marker_any_case "WaRnInG" ("<br>" ++ nl ++ "Careful</p>" ++ nl)).
  simpl; tauto.
Defined.

End Callouts.

(** ** The route and the links of the package page *)

Section PackagePage.
Import Js JsText Page.

Lemma indexOf_first (x : string) (ns rest : list string) :
  ~ In x ns -> indexOf (ns ++ x :: rest)%list x = Some (List.length ns).
Proof.
  induction ns as [|y ns IH]; intros Hnot; cbn [indexOf app List.length].
  - rewrite String.eqb_refl. reflexivity.
  - destruct (String.eqb_spec y x) as [->|Hne]; [exfalso; apply Hnot; left; reflexivity|].
    rewrite IH; [reflexivity|]. intros H; apply Hnot; right; exact H.
Qed.

Lemma indexOf_cases (x : string) (l : list string) :
  (indexOf l x = None /\ ~ In x l) \/
  (exists ns rest, l = (ns ++ x :: rest)%list /\ ~ In x ns).
Proof.
  induction l as [|y l IH]; [left; split; [reflexivity | intros []]|].
  destruct (String.eqb_spec y x) as [->|Hne].
  - right. exists [], l. split; [reflexivity | intros []].
  - destruct IH as [[Hnone Hnot] | (ns & rest & -> & Hnot)].
    + left. split.
      * cbn [indexOf]. destruct (String.eqb_spec y x); [contradiction|].
        rewrite Hnone. reflexivity.
      * intros [H|H]; [apply Hne, H | apply Hnot, H].
    + right. exists (y :: ns), rest. split; [reflexivity|].
      intros [H|H]; [apply Hne, H | apply Hnot, H].
Qed.

Lemma firstn_length_app {A : Type} (a b : list A) :
  firstn (List.length a) (a ++ b)%list = a.
Proof. induction a as [|x a IH]; simpl; [destruct b; reflexivity | rewrite IH; reflexivity]. Qed.

Lemma skipn_length_app {A : Type} (a : list A) (x : A) (b : list A) :
  skipn (S (List.length a)) (a ++ x :: b)%list = b.
Proof. induction a as [|y a IH]; simpl; [reflexivity | exact IH]. Qed.

Lemma parsedRoute_versioned (ns vs : list string) :
  ~ In "v" ns -> vs <> [] ->
  parsedRoute (ns ++ "v" :: vs)%list = (join ns "/", Some (join vs "/")).
Proof.
  intros Hnot Hvs. unfold parsedRoute. rewrite (indexOf_first _ _ _ Hnot).
  rewrite List.length_app. cbn [List.length].
  destruct vs as [|v vs]; [contradiction|]. cbn [List.length].
  replace (List.length ns <? List.length ns + S (S (List.length vs)) - 1)%nat with true
    by (symmetry; apply Nat.ltb_lt; lia).
  rewrite firstn_length_app, skipn_length_app. reflexivity.
Qed.

Lemma parsedRoute_unversioned (segments : list string) :
  (~ In "v" segments \/ exists ns, segments = (ns ++ ["v"])%list /\ ~ In "v" ns) ->
  parsedRoute segments = (join segments "/", None).
Proof.
  intros [Hnot | (ns & -> & Hnot)]; unfold parsedRoute.
  - destruct (indexOf_cases "v" segments) as [[-> _] | (ns & rest & -> & _)];
      [reflexivity|].
    exfalso. apply Hnot, in_or_app. right. left. reflexivity.
  - rewrite (indexOf_first _ _ _ Hnot), List.length_app. cbn [List.length].
    replace (List.length ns <? List.length ns + 1 - 1)%nat with false
      by (symmetry; apply Nat.ltb_ge; lia).
    reflexivity.
Qed.

(** X8. What the route gives. Either the segments are a name without a
    segment [v], then [v], then at least one more segment: the name is the
    first part and the requested version the rest, each joined with
    slashes. Or there is no segment [v], or the first one is the last
    segment: then all the segments are the name, a closing [v] included,
    and no version is requested. *)
Theorem parsedRoute_cases (segments : list string) :
  (exists ns vs,
      segments = (ns ++ "v" :: vs)%list /\ ~ In "v" ns /\ vs <> [] /\
      parsedRoute segments = (join ns "/", Some (join vs "/"))) \/
  ((~ In "v" segments \/ exists ns, segments = (ns ++ ["v"])%list /\ ~ In "v" ns) /\
   parsedRoute segments = (join segments "/", None)).
Proof.
  destruct (indexOf_cases "v" segments) as [[_ Hnot] | (ns & rest & Hseg & Hnot)].
  - right. split; [left; exact Hnot|]. apply parsedRoute_unversioned. left. exact Hnot.
  - destruct rest as [|v rest].
    + right. assert (H : ~ In "v" segments \/
                         exists ns, segments = (ns ++ ["v"])%list /\ ~ In "v" ns).
      { right. exists ns. split; assumption. }
      split; [exact H | apply parsedRoute_unversioned, H].
    + left. exists ns, (v :: rest). split; [exact Hseg|]. split; [exact Hnot|].
      split; [discriminate|]. rewrite Hseg. apply parsedRoute_versioned; [exact Hnot | discriminate].
Qed.

Lemma splitAux_app (sep : ascii) (acc a b : string) :
  splitAux sep acc (a ++ String sep b) =
  (splitAux sep acc a ++ splitAux sep EmptyString b)%list.
Proof.
  revert acc. induction a as [|c a IH]; intros acc; cbn [String.append splitAux].
  - rewrite Ascii.eqb_refl. reflexivity.
  - destruct (Ascii.eqb c sep); [rewrite IH; reflexivity | apply IH].
Qed.

Lemma splitAux_nonempty (sep : ascii) (acc s : string) : splitAux sep acc s <> [].
Proof.
  revert acc. induction s as [|c s IH]; intros acc; cbn [splitAux]; [discriminate|].
  destruct (Ascii.eqb c sep); [discriminate | apply IH].
Qed.

Lemma append_empty_r (s : string) : s ++ "" = s.
Proof. induction s as [|c s IH]; simpl; [reflexivity | rewrite IH; reflexivity]. Qed.

Lemma join_cons (sep x : string) (l : list string) :
  l <> [] -> join (x :: l) sep = x ++ sep ++ join l sep.
Proof. destruct l; [contradiction | reflexivity]. Qed.

Lemma join_splitAux (sep : ascii) (acc s : string) :
  join (splitAux sep acc s) (String sep EmptyString) = acc ++ s.
Proof.
  revert acc. induction s as [|c s IH]; intros acc; cbn [splitAux].
  - rewrite append_empty_r. reflexivity.
  - destruct (Ascii.eqb_spec c sep) as [->|Hne].
    + rewrite join_cons by apply splitAux_nonempty. rewrite IH. reflexivity.
    + rewrite IH, append_assoc. reflexivity.
Qed.

Lemma join_split (sep : ascii) (s : string) :
  join (split s sep) (String sep EmptyString) = s.
Proof. unfold split. rewrite join_splitAux. reflexivity. Qed.

Lemma join_length_app (sep x : string) (ns rest : list string) :
  String.length (join ns sep) + String.length x
  <= String.length (join (ns ++ x :: rest)%list sep).
Proof.
  induction ns as [|a ns IH].
  - cbn [app]. destruct rest; [simpl; lia|].
    rewrite join_cons by discriminate. rewrite !length_append. simpl. lia.
  - change ((a :: ns) ++ x :: rest)%list with (a :: (ns ++ x :: rest))%list.
    rewrite (join_cons sep a (ns ++ x :: rest)%list) by (destruct ns; discriminate).
    rewrite !length_append.
    destruct ns as [|b ns]; [simpl in *; lia|].
    rewrite (join_cons sep a (b :: ns)) by discriminate.
    rewrite !length_append. lia.
Qed.

Lemma split_versioned_path (name version : string) :
  split (name ++ "/v/" ++ version) "/" =
  (split name "/" ++ "v" :: split version "/")%list.
Proof.
  unfold split.
  change (name ++ "/v/" ++ version) with (name ++ String "/" ("v" ++ String "/" version)).
  rewrite !splitAux_app. reflexivity.
Qed.

(** X9. The canonical address of a versioned page is the site followed by
    the name, [/v/] and the version. The segments of that path give back
    the name and the version exactly when no segment of the name is [v]:
    for a name with such a segment the route reads another package and
    another version. *)
Theorem canonical_route_round_trip (name version : string) :
  version <> "" ->
  canonicalUrl name (Some version) = "https://npmx.dev/" ++ (name ++ "/v/" ++ version) /\
  (parsedRoute (split (name ++ "/v/" ++ version) "/") = (name, Some version)
   <-> ~ In "v" (split name "/")).
Proof.
  intros Hv. split.
  - unfold canonicalUrl. apply nonEmpty_true_iff in Hv. rewrite Hv.
    rewrite append_assoc. reflexivity.
  - rewrite split_versioned_path. split.
    + intros Hparse Hin.
      destruct (indexOf_cases "v" (split name "/")) as [[_ Hnot] | (ns & rest & Hsplit & Hnot)];
        [contradiction|].
      rewrite Hsplit, <- List.app_assoc in Hparse.
      change ((("v" :: rest) ++ "v" :: split version "/")%list)
        with ("v" :: (rest ++ "v" :: split version "/"))%list in Hparse.
      rewrite (parsedRoute_versioned ns _ Hnot) in Hparse
        by (destruct rest; discriminate).
      injection Hparse as Hname _.
      pose proof (join_length_app "/" "v" ns rest) as Hlen.
      rewrite <- Hsplit, join_split, <- Hname in Hlen. simpl in Hlen. lia.
    + intros Hnot.
      rewrite (parsedRoute_versioned _ _ Hnot) by apply splitAux_nonempty.
      rewrite !join_split. reflexivity.
Qed.

Lemma canonical_route_round_trip_witness :
  canonicalUrl "@nuxt/kit" (Some "1.0.0") = "https://npmx.dev/@nuxt/kit/v/1.0.0" /\
  (parsedRoute ["@nuxt"; "kit"; "v"; "1.0.0"] = ("@nuxt/kit", Some "1.0.0")
   <-> ~ In "v" ["@nuxt"; "kit"]).
Proof.
  apply (canonical_route_round_trip "@nuxt/kit" "1.0.0"). discriminate.
Defined.

Lemma cutAt_Some (sep : ascii) (s before after : string) :
  cutAt sep s = Some (before, after) ->
  s = before ++ String sep after /\ includes before (String sep EmptyString) = false.
Proof.
  revert before. induction s as [|c s IH]; intros before; cbn [cutAt]; [discriminate|].
  destruct (Ascii.eqb_spec c sep) as [->|Hne].
  - intros [= <- <-]. split; reflexivity.
  - destruct (cutAt sep s) as [[b a]|]; [|discriminate].
    intros [= <- <-]. destruct (IH b eq_refl) as [-> Hfree].
    split; [reflexivity|].
    rewrite includes_char_cons, Hfree. apply Ascii.eqb_neq in Hne.
    rewrite Ascii.eqb_sym, Hne. reflexivity.
Qed.

Lemma cutAt_app (sep : ascii) (before after : string) :
  includes before (String sep EmptyString) = false ->
  cutAt sep (before ++ String sep after) = Some (before, after).
Proof.
  induction before as [|c before IH]; cbn [String.append cutAt].
  - intros _. rewrite Ascii.eqb_refl. reflexivity.
  - rewrite includes_char_cons. intros H. apply orb_false_iff in H. destruct H as [Hc Hrest].
    rewrite Ascii.eqb_sym, Hc, (IH Hrest). reflexivity.
Qed.

(** X10. The organisation of a package name: the name is [@], the
    organisation and a slash followed by anything, the organisation being
    non-empty and without a slash. No other name has one. *)
Theorem orgName_scoped (name org : string) :
  orgName name = Some org <->
  org <> "" /\ slashFree org = true /\ exists rest, name = "@" ++ org ++ "/" ++ rest.
Proof.
  unfold orgName, slashFree. split.
  - destruct (startsWith name "@") eqn:Hat; [|discriminate]. cbn [negb].
    apply prefix_split in Hat. cbn [String.length drop String.append] in *.
    destruct name as [|c name]; [discriminate|]. injection Hat as ->.
    cbn [drop].
    destruct (cutAt "/" name) as [[o rest]|] eqn:Hcut; [|discriminate].
    destruct (nonEmpty o) eqn:Hne; [|discriminate].
    intros [= <-]. apply cutAt_Some in Hcut. destruct Hcut as [-> Hfree].
    split; [apply nonEmpty_true_iff, Hne|]. split; [rewrite Hfree; reflexivity|].
    exists rest. reflexivity.
  - intros (Hne & Hfree & rest & ->). apply negb_true_iff in Hfree.
    replace (startsWith ("@" ++ org ++ "/" ++ rest) "@") with true
      by (symmetry; apply (prefix_app "@")).
    cbn [negb].
    change (drop 1 ("@" ++ org ++ "/" ++ rest)) with (org ++ String "/" rest).
    rewrite (cutAt_app _ _ _ Hfree).
    apply nonEmpty_true_iff in Hne. rewrite Hne. reflexivity.
Qed.

Lemma stripSuffix_app (suffix s : string) : stripSuffix suffix (s ++ suffix) = s.
Proof.
  unfold stripSuffix, endsWith. rewrite length_append, Nat.add_sub, drop_app.
  rewrite String.eqb_refl, andb_true_r.
  replace (String.length suffix <=? String.length s + String.length suffix)%nat with true
    by (symmetry; apply Nat.leb_le; lia).
  apply take_app.
Qed.

Lemma replacePrefix_hit (prefix rep s : string) :
  replacePrefix prefix rep (prefix ++ s) = rep ++ s.
Proof. unfold replacePrefix, startsWith. rewrite prefix_app, drop_app. reflexivity. Qed.

Lemma replacePrefix_miss (prefix rep s : string) :
  startsWith s prefix = false -> replacePrefix prefix rep s = s.
Proof. unfold replacePrefix. intros ->. reflexivity. Qed.

Lemma https_github_normal (path : string) :
  replacePrefix "git@github.com:" "https://github.com/"
    (replacePrefix "ssh://git@github.com" "https://github.com"
       (stripSuffix ".git"
          (replacePrefix "git://" "https://" ("https://github.com/" ++ path ++ ".git")))) =
  "https://github.com/" ++ path.
Proof.
  rewrite (replacePrefix_miss "git://") by reflexivity.
  change ("https://github.com/" ++ path ++ ".git")
    with (("https://github.com/" ++ path) ++ ".git").
  rewrite stripSuffix_app.
  rewrite (replacePrefix_miss "ssh://git@github.com") by reflexivity.
  apply replacePrefix_miss. reflexivity.
Qed.

(** X11. The ways a GitHub repository is written in package manifests,
    with the [git+] prefix, the [git] protocol, the [ssh] protocol or the
    short [git@] form, and a closing [.git], all normalise to the same
    [https] address of the repository. *)
Theorem normalizeGitUrl_github_forms (path : string) :
  let normal := "https://github.com/" ++ path in
  normalizeGitUrl ("https://github.com/" ++ path ++ ".git") = normal /\
  normalizeGitUrl ("git+https://github.com/" ++ path ++ ".git") = normal /\
  normalizeGitUrl ("git://github.com/" ++ path ++ ".git") = normal /\
  normalizeGitUrl ("ssh://git@github.com/" ++ path ++ ".git") = normal /\
  normalizeGitUrl ("git+ssh://git@github.com/" ++ path ++ ".git") = normal /\
  normalizeGitUrl ("git@github.com:" ++ path ++ ".git") = normal.
Proof.
  cbv zeta. unfold normalizeGitUrl. repeat split.
  - rewrite (replacePrefix_miss "git+") by reflexivity. apply https_github_normal.
  - change ("git+https://github.com/" ++ path ++ ".git")
      with ("git+" ++ "https://github.com/" ++ path ++ ".git").
    rewrite replacePrefix_hit. apply https_github_normal.
  - rewrite (replacePrefix_miss "git+") by reflexivity.
    change ("git://github.com/" ++ path ++ ".git")
      with ("git://" ++ "github.com/" ++ path ++ ".git").
    rewrite replacePrefix_hit.
    change ("https://" ++ "github.com/" ++ path ++ ".git")
      with (("https://github.com/" ++ path) ++ ".git").
    rewrite stripSuffix_app.
    rewrite (replacePrefix_miss "ssh://git@github.com") by reflexivity.
    apply replacePrefix_miss. reflexivity.
  - rewrite (replacePrefix_miss "git+") by reflexivity.
    rewrite (replacePrefix_miss "git://") by reflexivity.
    change ("ssh://git@github.com/" ++ path ++ ".git")
      with (("ssh://git@github.com" ++ "/" ++ path) ++ ".git").
    rewrite stripSuffix_app, replacePrefix_hit.
    apply replacePrefix_miss. reflexivity.
  - change ("git+ssh://git@github.com/" ++ path ++ ".git")
      with ("git+" ++ "ssh://git@github.com/" ++ path ++ ".git").
    rewrite replacePrefix_hit.
    rewrite (replacePrefix_miss "git://") by reflexivity.
    change ("" ++ "ssh://git@github.com/" ++ path ++ ".git")
      with (("ssh://git@github.com" ++ "/" ++ path) ++ ".git").
    rewrite stripSuffix_app, replacePrefix_hit.
    apply replacePrefix_miss. reflexivity.
  - rewrite (replacePrefix_miss "git+") by reflexivity.
    rewrite (replacePrefix_miss "git://") by reflexivity.
    change ("git@github.com:" ++ path ++ ".git")
      with (("git@github.com:" ++ path) ++ ".git").
    rewrite stripSuffix_app.
    rewrite (replacePrefix_miss "ssh://git@github.com") by reflexivity.
    apply replacePrefix_hit.
Qed.

End PackagePage.

(** ** The commands shown on the page *)

Section Commands.
Import Js JsText InstallTypes Page.

Lemma known_manager (pmId : string) :
  In pmId knownDialects ->
  exists pm, In pm InstallCommand.packageManagers /\ pmId = InstallCommand.id pm.
Proof.
  intros H. change knownDialects with (map InstallCommand.id InstallCommand.packageManagers) in H.
  apply in_map_iff in H. destruct H as (pm & Hid & Hin). exists pm. split; [exact Hin | symmetry; exact Hid].
Qed.

Lemma manager_known (pm : InstallCommand.PackageManager) :
  In pm InstallCommand.packageManagers -> In (InstallCommand.id pm) knownDialects.
Proof.
  intros H. change knownDialects with (map InstallCommand.id InstallCommand.packageManagers).
  apply in_map, H.
Qed.

Lemma join_app_single (sep x : string) (l : list string) :
  l <> [] -> join (l ++ [x])%list sep = join l sep ++ sep ++ x.
Proof.
  induction l as [|a l IH]; [contradiction|]. intros _.
  destruct l as [|b l]; [reflexivity|].
  change ((a :: b :: l) ++ [x])%list with (a :: ((b :: l) ++ [x]))%list.
  rewrite join_cons by discriminate. rewrite IH by discriminate.
  rewrite (join_cons sep a (b :: l)) by discriminate.
  rewrite !append_assoc. reflexivity.
Qed.

Lemma join_words (token x : string) :
  join (split token " " ++ [x])%list " " = token ++ " " ++ x.
Proof.
  rewrite join_app_single by apply splitAux_nonempty.
  rewrite (join_split " "). reflexivity.
Qed.

Lemma splitAux_free (sep : ascii) (acc x : string) :
  includes x (String sep EmptyString) = false -> splitAux sep acc x = [acc ++ x].
Proof.
  revert acc. induction x as [|c x IH]; intros acc; cbn [splitAux].
  - intros _. rewrite append_empty_r. reflexivity.
  - rewrite includes_char_cons. intros H. apply orb_false_iff in H. destruct H as [Hc Hx].
    rewrite Ascii.eqb_sym, Hc, (IH _ Hx), append_assoc. reflexivity.
Qed.

Lemma split_join (sep : ascii) (l : list string) :
  Forall (fun x => includes x (String sep EmptyString) = false) l -> l <> [] ->
  split (join l (String sep EmptyString)) sep = l.
Proof.
  induction l as [|x l IH]; [contradiction|]. intros Hfree _.
  inversion Hfree as [|? ? Hx Hl]; subst. unfold split in *.
  destruct l as [|y l]; [apply splitAux_free, Hx|].
  rewrite join_cons by discriminate.
  change (x ++ String sep EmptyString ++ join (y :: l) (String sep EmptyString))
    with (x ++ String sep (join (y :: l) (String sep EmptyString))).
  rewrite splitAux_app, (splitAux_free _ _ _ Hx), IH by (assumption || discriminate).
  reflexivity.
Qed.

Lemma manager_words (pm : InstallCommand.PackageManager) :
  In pm InstallCommand.packageManagers ->
  includes (InstallCommand.label pm) " " = false /\
  includes (InstallCommand.action pm) " " = false /\
  InstallCommand.label pm <> "".
Proof.
  intros H. simpl in H.
  repeat (destruct H as [<- | H]; [repeat split; discriminate|]). contradiction.
Qed.

Lemma install_parts_known (o : InstallCommandOptions) (pm : InstallCommand.PackageManager) :
  In pm InstallCommand.packageManagers -> packageManager o = InstallCommand.id pm ->
  InstallCommand.getInstallCommandParts o =
    [InstallCommand.label pm; InstallCommand.action pm;
     InstallCommand.getPackageSpecifier o ++ versionSuffix (version o)].
Proof.
  intros Hin Hid. unfold InstallCommand.getInstallCommandParts.
  rewrite Hid, (findManager_known _ Hin). reflexivity.
Qed.

(** X12. With a known dialect and no space in the package specifier and
    the version, the parts of the install command are exactly the words of
    the command: splitting the text that is copied on its spaces gives the
    three parts that are displayed. *)
Theorem install_parts_are_the_words (o : InstallCommandOptions) :
  In (packageManager o) knownDialects ->
  spaceFree (InstallCommand.getPackageSpecifier o ++ versionSuffix (version o)) = true ->
  split (InstallCommand.getInstallCommand o) " " = InstallCommand.getInstallCommandParts o /\
  List.length (InstallCommand.getInstallCommandParts o) = 3.
Proof.
  intros Hknown Hfree. apply known_manager in Hknown. destruct Hknown as (pm & Hin & Hid).
  unfold InstallCommand.getInstallCommand.
  rewrite (install_parts_known o pm Hin Hid). split; [|reflexivity].
  destruct (manager_words pm Hin) as (Hlabel & Haction & _).
  apply negb_true_iff in Hfree.
  apply (split_join " "); [|discriminate].
  repeat constructor; assumption.
Qed.

Lemma install_parts_are_the_words_witness :
  split (InstallCommand.getInstallCommand (installOptions "@nuxt/kit" "pnpm" (Some "1.0.0") None)) " "
    = ["pnpm"; "add"; "@nuxt/kit@1.0.0"] /\
  List.length
    (InstallCommand.getInstallCommandParts (installOptions "@nuxt/kit" "pnpm" (Some "1.0.0") None))
    = 3.
Proof.
  apply (install_parts_are_the_words (installOptions "@nuxt/kit" "pnpm" (Some "1.0.0") None)).
  - simpl. tauto.
  - reflexivity.
Defined.

(** X13. The text of the execute command for a known dialect: the create
    command of the dialect and the short name for a create package whose
    short name differs from its name, whatever the version, the JSR
    information and the binary flag; otherwise the remote runner for a
    binary-only package and the local one for the others, followed by the
    package specifier. A runner of two words comes back as written. *)
Theorem getExecuteCommand_text (getCreateShortName : string -> string)
  (o : ExecuteCommandOptions) (pm : InstallCommand.PackageManager) :
  In pm InstallCommand.packageManagers ->
  packageManager o = InstallCommand.id pm ->
  InstallCommand.getExecuteCommand getCreateShortName o =
    if isCreatePackage o && negb (getCreateShortName (packageName o) =? packageName o)
    then InstallCommand.create pm ++ " " ++ getCreateShortName (packageName o)
    else (if isBinaryOnly o then InstallCommand.executeRemote pm
          else InstallCommand.executeLocal pm)
           ++ " " ++ InstallCommand.getPackageSpecifier o.
Proof.
  intros Hin Hid.
  unfold InstallCommand.getExecuteCommand, InstallCommand.getExecuteCommandParts.
  rewrite Hid, (findManager_known _ Hin). cbv zeta.
  destruct (isCreatePackage o && negb (getCreateShortName (packageName o) =? packageName o));
    apply join_words.
Qed.

Lemma getExecuteCommand_text_witness :
  InstallCommand.getExecuteCommand (fun _ => "vite")
    {| install := installOptions "create-vite" "pnpm" (Some "5.0.0") None;
       isBinaryOnly := true; isCreatePackage := true |} = "pnpm create vite" /\
  InstallCommand.getExecuteCommand (fun name => name)
    {| install := installOptions "eslint" "pnpm" None None;
       isBinaryOnly := false; isCreatePackage := false |} = "pnpm exec eslint".
Proof.
  split.
  - apply (getExecuteCommand_text (fun _ => "vite")
             {| install := installOptions "create-vite" "pnpm" (Some "5.0.0") None;
                isBinaryOnly := true; isCreatePackage := true |}
             {| InstallCommand.id := "pnpm"; InstallCommand.label := "pnpm";
                InstallCommand.action := "add"; InstallCommand.executeLocal := "pnpm exec";
                InstallCommand.executeRemote := "pnpm dlx";
                InstallCommand.create := "pnpm create";
                InstallCommand.icon := "i-simple-icons:pnpm" |}).
    + simpl. tauto.
    + reflexivity.
  - reflexivity.
Defined.

(** X14. Whether a package is binary-only changes the execute command of
    two dialects only, [pnpm] and [yarn], and not for a create package
    with a short name of its own: everywhere else the local and the remote
    runner are the same. *)
Theorem binary_flag_matters_for_pnpm_and_yarn (getCreateShortName : string -> string)
  (o : InstallCommandOptions) (isCreate : bool) :
  InstallCommand.getExecuteCommandParts getCreateShortName
    {| install := o; isBinaryOnly := true; isCreatePackage := isCreate |} =
  InstallCommand.getExecuteCommandParts getCreateShortName
    {| install := o; isBinaryOnly := false; isCreatePackage := isCreate |}
  <-> (~ In (packageManager o) ["pnpm"; "yarn"] \/
       (isCreate = true /\ getCreateShortName (packageName o) <> packageName o)).
Proof.
  unfold InstallCommand.getExecuteCommandParts. cbn [install isBinaryOnly isCreatePackage].
  destruct (in_dec string_dec (packageManager o) knownDialects) as [Hknown | Hunknown].
  - apply known_manager in Hknown. destruct Hknown as (pm & Hin & Hid).
    rewrite Hid, (findManager_known _ Hin). cbv zeta.
    destruct (String.eqb_spec (getCreateShortName (packageName o)) (packageName o))
      as [Hsame | Hdiff]; cbn [negb].
    + rewrite andb_false_r. simpl in Hin.
      repeat (destruct Hin as [<- | Hin];
              [cbn; split;
               [intros H; first [discriminate H | left; intros Hx; cbn in Hx; intuition discriminate]
               |intros [H | [_ H]];
                [first [reflexivity | exfalso; apply H; cbn; tauto]
                |contradiction]]|]).
      contradiction.
    + destruct isCreate; cbn [andb].
      * split; [intros _; right; split; [reflexivity | exact Hdiff] | reflexivity].
      * simpl in Hin.
        repeat (destruct Hin as [<- | Hin];
                [cbn; split;
                 [intros H; first [discriminate H | left; intros Hx; cbn in Hx; intuition discriminate]
                 |intros [H | [H _]];
                  [first [reflexivity | exfalso; apply H; cbn; tauto]
                  |discriminate H]]|]).
        contradiction.
  - rewrite (findManager_unknown _ Hunknown). split; [|reflexivity].
    intros _. left. intros Hin. apply Hunknown. simpl in *. tauto.
Qed.

Lemma restoreSelectedPM_known (stored : option string) :
  In (restoreSelectedPM stored) knownDialects.
Proof.
  unfold restoreSelectedPM. destruct stored as [s|]; [|simpl; tauto].
  destruct (nonEmpty s); cbn [andb]; [|simpl; tauto].
  destruct (existsb _ _) eqn:E; [|simpl; tauto].
  apply existsb_exists in E. destruct E as (pm & Hin & Hid).
  apply String.eqb_eq in Hid. subst s. apply manager_known, Hin.
Qed.

(** X15. The dialect restored from the browser storage is always one of
    the six known ones: a stored known dialect is taken, anything else,
    or nothing, leaves [npm]. So the install command of a loaded package
    always has its three parts and is never empty, whatever was stored. *)
Theorem restored_dialect_is_known (stored : option string) :
  In (restoreSelectedPM stored) knownDialects /\
  (forall s, stored = Some s -> In s knownDialects -> restoreSelectedPM stored = s) /\
  ((stored = None \/ exists s, stored = Some s /\ ~ In s knownDialects) ->
   restoreSelectedPM stored = "npm") /\
  (forall name requestedVersion jsr,
      List.length (installCommandParts (Some name) (restoreSelectedPM stored)
                     requestedVersion jsr) = 3 /\
      installCommand (Some name) (restoreSelectedPM stored) requestedVersion jsr <> "").
Proof.
  split; [apply restoreSelectedPM_known|]. split; [|split].
  - intros s -> Hs. unfold restoreSelectedPM.
    replace (nonEmpty s) with true
      by (symmetry; apply nonEmpty_true_iff; intros ->; simpl in Hs; intuition discriminate).
    replace (existsb (fun pm => InstallCommand.id pm =? s) InstallCommand.packageManagers)
      with true; [reflexivity|].
    symmetry. apply existsb_exists. apply known_manager in Hs.
    destruct Hs as (pm & Hin & ->). exists pm. split; [exact Hin | apply String.eqb_refl].
  - intros [-> | (s & -> & Hs)]; [reflexivity|]. unfold restoreSelectedPM.
    destruct (nonEmpty s); cbn [andb]; [|reflexivity].
    destruct (existsb _ _) eqn:E; [|reflexivity].
    exfalso. apply Hs. apply existsb_exists in E. destruct E as (pm & Hin & Hid).
    apply String.eqb_eq in Hid. subst s. apply manager_known, Hin.
  - intros name requestedVersion jsr.
    pose proof (restoreSelectedPM_known stored) as Hknown.
    apply known_manager in Hknown. destruct Hknown as (pm & Hin & Hid).
    unfold installCommandParts, installCommand, InstallCommand.getInstallCommand.
    rewrite (install_parts_known
               {| packageName := name; packageManager := restoreSelectedPM stored;
                  version := requestedVersion; jsrInfo := jsr |}
               pm Hin Hid).
    split; [reflexivity|].
    destruct (manager_words pm Hin) as (_ & _ & Hlabel).
    rewrite join_cons by discriminate.
    destruct (InstallCommand.label pm); [contradiction | discriminate].
Qed.

End Commands.

(** ** The tag transforms *)

Section TransformTags.
Import Js Readme.

Variable packageName : string.
Variable hasProtocol : string -> bool.

Lemma transformA_external (attribs : Attribs) (href : string) :
  getAttr attribs "href" = Some href -> nonEmpty href && hasProtocol href = true ->
  transformA hasProtocol attribs =
  setAttr (setAttr attribs "rel" relValue) "target" targetValue.
Proof. intros Hhref Hcond. unfold transformA. rewrite Hhref, Hcond. reflexivity. Qed.

Lemma transformA_other (attribs : Attribs) :
  (getAttr attribs "href" = None \/
   exists href, getAttr attribs "href" = Some href /\
                nonEmpty href && hasProtocol href = false) ->
  transformA hasProtocol attribs = attribs.
Proof.
  unfold transformA. intros [-> | (href & -> & ->)]; reflexivity.
Qed.

(** X16. The link transform adds the security attributes and nothing
    else. A link whose address is present and has a protocol, a
    protocol-relative one included, leaves with the fixed [rel] and
    [target], whatever values it came with; every other attribute keeps
    its value; a link without such an address is not touched; and the
    transform applied again changes nothing. *)
Theorem transformA_sets_rel_and_target (attribs : Attribs) :
  (forall href,
      getAttr attribs "href" = Some href -> href <> "" -> hasProtocol href = true ->
      getAttr (transformA hasProtocol attribs) "rel" = Some relValue /\
      getAttr (transformA hasProtocol attribs) "target" = Some targetValue) /\
  (forall k, k <> "rel" -> k <> "target" ->
             getAttr (transformA hasProtocol attribs) k = getAttr attribs k) /\
  ((getAttr attribs "href" = None \/ getAttr attribs "href" = Some "" \/
    exists href, getAttr attribs "href" = Some href /\ hasProtocol href = false) ->
   transformA hasProtocol attribs = attribs) /\
  transformA hasProtocol (transformA hasProtocol attribs) = transformA hasProtocol attribs.
Proof.
  destruct (getAttr attribs "href") as [href|] eqn:Hhref.
  2:{ rewrite (transformA_other attribs) by (left; exact Hhref).
      repeat split; try reflexivity; try discriminate.
      apply transformA_other. left. exact Hhref. }
  destruct (nonEmpty href && hasProtocol href) eqn:Hcond.
  - rewrite (transformA_external attribs href Hhref Hcond).
    apply andb_true_iff in Hcond. destruct Hcond as [Hne Hproto].
    split; [|split; [|split]].
    + intros _ _ _ _. split.
      * rewrite getAttr_setAttr_other by discriminate. apply getAttr_setAttr_same.
      * apply getAttr_setAttr_same.
    + intros k Hrel Htarget.
      rewrite !getAttr_setAttr_other by congruence. reflexivity.
    + intros [H | [H | (h & H & Hh)]]; [discriminate H | |].
      * injection H as ->. discriminate Hne.
      * injection H as ->. congruence.
    + rewrite (transformA_external _ href).
      * rewrite (setAttr_same (setAttr (setAttr attribs "rel" relValue) "target" targetValue)
                   "rel" relValue)
          by (rewrite getAttr_setAttr_other by discriminate; apply getAttr_setAttr_same).
        apply setAttr_same, getAttr_setAttr_same.
      * rewrite !getAttr_setAttr_other by discriminate. exact Hhref.
      * rewrite Hne, Hproto. reflexivity.
  - assert (Hsame : transformA hasProtocol attribs = attribs).
    { apply transformA_other. right. exists href. split; [exact Hhref | exact Hcond]. }
    rewrite Hsame. split; [|split; [|split]].
    + intros h [= <-] Hne Hproto. apply nonEmpty_true_iff in Hne.
      rewrite Hne, Hproto in Hcond. discriminate Hcond.
    + reflexivity.
    + reflexivity.
    + exact Hsame.
Qed.

(** X17. The image transform touches the source only: the names of the
    attributes and their order stay, every attribute but [src] keeps its
    value, and a source that leaves is empty or starts with [#],
    [http://], [https://] or [//], never a path relative to the page. *)
Theorem transformImg_resolves_src_only (attribs : Attribs) :
  map fst (transformImg packageName attribs) = map fst attribs /\
  (forall k, k <> "src" ->
             getAttr (transformImg packageName attribs) k = getAttr attribs k) /\
  (forall src,
      getAttr (transformImg packageName attribs) "src" = Some src ->
      src = "" \/ startsAbsoluteOrFragment src = true).
Proof.
  unfold transformImg.
  destruct (getAttr attribs "src") as [src0|] eqn:Hsrc.
  2:{ repeat split; try reflexivity. intros src H. congruence. }
  destruct (nonEmpty src0) eqn:Hne.
  - split; [apply setAttr_names; congruence|]. split.
    + intros k Hk. apply getAttr_setAttr_other. congruence.
    + intros src. rewrite getAttr_setAttr_same. intros [= <-].
      change (resolveImageUrl src0 packageName) with (blobToRaw (resolveUrl src0 packageName)).
      apply blobToRaw_shape, resolveUrl_shape.
  - repeat split; try reflexivity. intros src H. left.
    apply nonEmpty_false_iff in Hne. congruence.
Qed.

End TransformTags.

(** ** The dependency lists *)

Section Orders.

Lemma string_compare_refl (s : string) : String.compare s s = Eq.
Proof.
  pose proof (String.compare_antisym s s) as H.
  destruct (String.compare s s); simpl in H; congruence.
Qed.

Lemma string_compare_trans (a b c : string) :
  String.compare a b = Lt -> String.compare b c = Lt -> String.compare a c = Lt.
Proof.
  intros Hab Hbc. apply String_as_OT.cmp_lt. apply String_as_OT.cmp_lt in Hab, Hbc.
  eapply String_as_OT.lt_trans; eassumption.
Qed.

Lemma StronglySorted_impl {A : Type} (R R' : A -> A -> Prop) (l : list A) :
  (forall a b, In a l -> In b l -> R a b -> R' a b) ->
  StronglySorted R l -> StronglySorted R' l.
Proof.
  intros Himpl Hs. induction Hs as [|a l Hs IH Hall]; constructor.
  - apply IH. intros x y Hx Hy. apply Himpl; right; assumption.
  - rewrite Forall_forall in *. intros b Hb.
    apply Himpl; [left; reflexivity | right; exact Hb | apply Hall, Hb].
Qed.

End Orders.

Section SortModel.
Import JsText.

Context {A : Type} (cmp : A -> A -> Z).

Lemma insertSorted_perm (x : A) (l : list A) : Permutation (insertSorted cmp x l) (x :: l).
Proof.
  induction l as [|y l IH]; cbn [insertSorted]; [reflexivity|].
  destruct (cmp x y <=? 0)%Z; [reflexivity|].
  rewrite IH. apply perm_swap.
Qed.

Lemma sort_perm (l : list A) : Permutation (sort cmp l) l.
Proof.
  induction l as [|x l IH]; [reflexivity|].
  unfold sort in *. cbn [fold_right]. rewrite insertSorted_perm. apply perm_skip, IH.
Qed.

Hypothesis cmp_consistent : consistent cmp.

Lemma insertSorted_sorted (x : A) (l : list A) :
  StronglySorted (notAfter cmp) l -> StronglySorted (notAfter cmp) (insertSorted cmp x l).
Proof.
  destruct cmp_consistent as [Htotal Htrans].
  intros Hs. induction Hs as [|y l Hs IH Hall]; cbn [insertSorted].
  - repeat constructor.
  - destruct (Z.leb_spec (cmp x y) 0) as [Hle | Hgt].
    + constructor; [constructor; assumption|].
      constructor; [exact Hle|].
      rewrite Forall_forall in *. intros z Hz. apply (Htrans x y z Hle), Hall, Hz.
    + constructor; [exact IH|].
      apply (Permutation_Forall (Permutation_sym (insertSorted_perm x l))).
      constructor; [apply Htotal, Hgt | exact Hall].
Qed.

Lemma sort_sorted (l : list A) : StronglySorted (notAfter cmp) (sort cmp l).
Proof.
  induction l as [|x l IH]; [constructor|].
  unfold sort in *. cbn [fold_right]. apply insertSorted_sorted, IH.
Qed.

End SortModel.

Section DependencyLists.
Import Js JsText Dependencies.

Lemma byteCompare_consistent : consistent byteCompare.
Proof.
  unfold byteCompare. split.
  - intros a b. rewrite (String.compare_antisym a b).
    destruct (String.compare b a); simpl; lia.
  - intros a b c.
    destruct (String.compare a b) eqn:Hab; [| |lia];
      destruct (String.compare b c) eqn:Hbc; try lia; intros _ _.
    + apply String.compare_eq_iff in Hab, Hbc. subst.
      rewrite string_compare_refl. lia.
    + apply String.compare_eq_iff in Hab. subst. rewrite Hbc. lia.
    + apply String.compare_eq_iff in Hbc. subst. rewrite Hab. lia.
    + rewrite (string_compare_trans a b c Hab Hbc). lia.
Qed.

Variable localeCompare : string -> string -> Z.

Lemma comparePeers_consistent :
  consistent localeCompare -> consistent (comparePeers localeCompare).
Proof.
  intros [Htotal Htrans]. unfold comparePeers. split.
  - intros a b. destruct (optional a), (optional b); cbn; try lia; apply Htotal.
  - intros a b c.
    destruct (optional a), (optional b), (optional c); cbn; try lia; apply Htrans.
Qed.

(** X18. With a consistent [localeCompare], the dependencies are shown
    in the order of their names: the list holds the entries of the
    manifest, each as often as it was there, and no entry comes after one
    whose name it precedes. Without dependencies the list is empty. *)
Theorem sortedDependencies_ordered (dependencies : option (list (string * string))) :
  consistent localeCompare ->
  Permutation (sortedDependencies localeCompare dependencies)
    (match dependencies with Some entries => entries | None => [] end) /\
  StronglySorted (fun a b => (localeCompare (fst a) (fst b) <= 0)%Z)
    (sortedDependencies localeCompare dependencies).
Proof.
  intros [Htotal Htrans]. destruct dependencies as [entries|]; cbn [sortedDependencies].
  - split; [apply sort_perm|].
    apply (sort_sorted (fun a b : string * string => localeCompare (fst a) (fst b))).
    split; [intros a b; apply Htotal | intros a b c; apply Htrans].
  - split; constructor.
Qed.

(** X19. With a consistent [localeCompare], the peer dependencies are the
    entries of the manifest, each with the optional flag of its meta entry
    and [false] without one, in this order: no optional one before a
    required one, and among the required ones and among the optional ones
    by name. *)
Theorem sortedPeerDependencies_required_first
  (peerDependencies : option (list (string * string)))
  (peerDependenciesMeta : option (list (string * option bool))) :
  consistent localeCompare ->
  Permutation
    (map (fun p => (name p, version p))
       (sortedPeerDependencies localeCompare peerDependencies peerDependenciesMeta))
    (match peerDependencies with Some entries => entries | None => [] end) /\
  Forall (fun p => optional p =
                   match peerDependenciesMeta with
                   | Some meta => lookupOptional meta (name p)
                   | None => false
                   end)
    (sortedPeerDependencies localeCompare peerDependencies peerDependenciesMeta) /\
  StronglySorted
    (fun a b => (optional a = true -> optional b = true) /\
                (optional a = optional b -> (localeCompare (name a) (name b) <= 0)%Z))
    (sortedPeerDependencies localeCompare peerDependencies peerDependenciesMeta).
Proof.
  intros Hcons. destruct peerDependencies as [entries|]; cbn [sortedPeerDependencies].
  2:{ repeat split; constructor. }
  set (peers := map _ entries).
  pose proof (sort_perm (comparePeers localeCompare) peers) as Hperm.
  split; [|split].
  - rewrite Hperm. unfold peers. rewrite map_map. cbn [name version].
    rewrite <- (map_id entries) at 2.
    apply Permutation_refl'. apply map_ext. intros [n v]. reflexivity.
  - apply (Permutation_Forall (Permutation_sym Hperm)).
    unfold peers. apply Forall_forall. intros p Hp.
    apply in_map_iff in Hp. destruct Hp as (e & <- & _). reflexivity.
  - apply StronglySorted_impl with (R := notAfter (comparePeers localeCompare));
      [|apply sort_sorted, comparePeers_consistent, Hcons].
    intros a b _ _. unfold notAfter, comparePeers.
    destruct (optional a), (optional b); cbn; intros H; split; intros; try lia;
      try reflexivity; try discriminate; assumption.
Qed.

End DependencyLists.

Lemma sortedDependencies_ordered_witness :
  Permutation
    (Dependencies.sortedDependencies byteCompare
       (Some [("vue", "^3.5.0"); ("defu", "^6.1.4"); ("ufo", "^1.5.0")]))
    [("vue", "^3.5.0"); ("defu", "^6.1.4"); ("ufo", "^1.5.0")] /\
  StronglySorted (fun a b => (byteCompare (fst a) (fst b) <= 0)%Z)
    (Dependencies.sortedDependencies byteCompare
       (Some [("vue", "^3.5.0"); ("defu", "^6.1.4"); ("ufo", "^1.5.0")])).
Proof.
  apply (sortedDependencies_ordered byteCompare
           (Some [("vue", "^3.5.0"); ("defu", "^6.1.4"); ("ufo", "^1.5.0")])).
  exact byteCompare_consistent.
Defined.

Lemma sortedPeerDependencies_required_first_witness :
  Dependencies.sortedPeerDependencies byteCompare
    (Some [("vue", "^3.0.0"); ("typescript", ">=5"); ("react", "^18")])
    (Some [("typescript", Some true); ("react", None)]) =
  [ {| Dependencies.name := "react"; Dependencies.version := "^18";
       Dependencies.optional := false |};
    {| Dependencies.name := "vue"; Dependencies.version := "^3.0.0";
       Dependencies.optional := false |};
    {| Dependencies.name := "typescript"; Dependencies.version := ">=5";
       Dependencies.optional := true |} ] /\
  StronglySorted
    (fun a b => (Dependencies.optional a = true -> Dependencies.optional b = true) /\
                (Dependencies.optional a = Dependencies.optional b ->
                 (byteCompare (Dependencies.name a) (Dependencies.name b) <= 0)%Z))
    (Dependencies.sortedPeerDependencies byteCompare
       (Some [("vue", "^3.0.0"); ("typescript", ">=5"); ("react", "^18")])
       (Some [("typescript", Some true); ("react", None)])).
Proof.
  split; [reflexivity|].
  apply (sortedPeerDependencies_required_first byteCompare
           (Some [("vue", "^3.0.0"); ("typescript", ">=5"); ("react", "^18")])
           (Some [("typescript", Some true); ("react", None)])).
  exact byteCompare_consistent.
Defined.
